(** * Leaderboard server (server.go): a shallow embedding and its properties

    The repository holds two variants of [server.go].  They share
    [getAllPlayers], [updateScore] and [handleWebSocket] verbatim and differ
    in [addUser]: the variant configured from the environment answers in
    plain text and stores the record as it was posted, the variant with
    literal credentials answers with a [UserResponse] and resets the score.

    Redis, the websocket connections and the JSON codec are libraries, not
    code of the repository.  They are modelled by what the program can
    observe of them:
    - a byte string is modelled by its JSON reading ([payload]);
    - Redis is a keyspace, the server's SCAN paging and a fault schedule;
    - a websocket connection is a queue of pending frames, the error with
      which the peer went away (if it did), and whether writes fail; the
      library panics on the 1000th failed read of a connection;
    - every library call leaves an [Event] in the [trace] of the [World]. *)

From Stdlib Require Import ZArith NArith Ascii String List Sorted Permutation DecimalString.
From Stdlib Require Decimal.
From stdpp Require Import gmap strings list fin_maps sorting.

Local Open Scope Z_scope.
Local Open Scope string_scope.

(** ** JSON values, as encoding/json reads them *)

(** A number token is kept by the readings the program takes of it:
    [IntLit z] is an integer literal that [strconv.ParseInt] accepts as the
    int z; [OtherLit t] is any other number that float64 can hold
    (fraction, exponent, integer outside int64), t being that float64
    truncated toward zero; [HugeLit] is a number outside the range of
    float64, such as 1e400. *)
Inductive number : Type :=
| IntLit (z : Z)
| OtherLit (trunc : Z)
| HugeLit.

#[local] Set Warnings "-register-all,-clear-no-such-hyp".

Inductive json : Type :=
| JNull
| JBool (b : bool)
| JNumber (n : number)
| JString (s : string)
| JArray (items : list json)
| JObject (fields : list (string * json)).

(** The bytes of a value, a request body or a frame. *)
Inductive payload : Type :=
| NotJSON (bytes : string)
| JSONText (j : json).

Inductive error : Type :=
| redis_Nil
| StoreError (what : string)
| SyntaxError
| UnmarshalTypeError (field : string)
| NetError (what : string).

Definition error_text (e : error) : string :=
  match e with
  | redis_Nil => "redis: nil"
  | StoreError s => s
  | SyntaxError => "invalid character or unexpected end of JSON input"
  | UnmarshalTypeError f => "json: cannot unmarshal into Go struct field " ++ f
  | NetError s => s
  end.

Record GameState : Type := mkGameState { Username : string; Score : Z }.

Record UserResponse : Type :=
  mkUserResponse { respUsername : string; respScore : Z; respState : string }.

(** float64(z) for an int z, read back with int(.): z rounded to 53
    significant bits, ties to even.  Exact inside the int64 range. *)
Definition float64_of_int (z : Z) : Z :=
  let a := Z.abs z in
  let e := Z.log2 a - 52 in
  if (e <=? 0)%Z then z
  else
    let q := Z.shiftr a e in
    let r := a - Z.shiftl q e in
    let half := Z.shiftl 1 (e - 1) in
    let q' := if (half <? r)%Z || ((r =? half)%Z && Z.odd q) then q + 1 else q in
    Z.sgn z * Z.shiftl q' e.

(** The float64 that [.(float64)] finds for a number, truncated toward
    zero.  A [HugeLit] never gets there: the decoder refuses it. *)
Definition float64_trunc (n : number) : Z :=
  match n with
  | IntLit z => float64_of_int z
  | OtherLit t => t
  | HugeLit => 0
  end.

(** The values of Go's int. *)
Definition in_int64 (z : Z) : bool := (- 2 ^ 63 <=? z)%Z && (z <? 2 ^ 63)%Z.

(** Case folding, as the decoder matches object keys to the field names
    "username" and "score": ASCII letters fold to lower case, and the two
    letters outside ASCII whose folding meets ASCII fold with it, U+017F
    (bytes C5 BF) to s and U+212A (bytes E2 84 AA) to k. *)
Definition to_lower (c : ascii) : ascii :=
  let n := N_of_ascii c in
  if ((65 <=? n) && (n <=? 90))%N then ascii_of_N (n + 32) else c.

Definition is_byte (c : ascii) (n : N) : bool := (N_of_ascii c =? n)%N.

Fixpoint foldName (s : string) : string :=
  match s with
  | EmptyString => EmptyString
  | String c rest =>
      match rest with
      | EmptyString => String (to_lower c) EmptyString
      | String d rest2 =>
          if is_byte c 197 && is_byte d 191 then String "s" (foldName rest2)
          else
            match rest2 with
            | EmptyString => String (to_lower c) (foldName rest)
            | String e rest3 =>
                if is_byte c 226 && is_byte d 132 && is_byte e 170
                then String "k" (foldName rest3)
                else String (to_lower c) (foldName rest)
            end
      end
  end.

Definition equalFold (a b : string) : bool := String.eqb (foldName a) (foldName b).

(** One object member decoded into the struct; a member that names no field
    is skipped, [null] leaves the field as it is. *)
Definition decode_field (g : GameState) (kv : string * json) : error + GameState :=
  let '(k, v) := kv in
  if equalFold k "username" then
    match v with
    | JString s => inr (mkGameState s (Score g))
    | JNull => inr g
    | _ => inl (UnmarshalTypeError "GameState.username")
    end
  else if equalFold k "score" then
    match v with
    | JNumber (IntLit z) => inr (mkGameState (Username g) z)
    | JNull => inr g
    | _ => inl (UnmarshalTypeError "GameState.score")
    end
  else inr g.

Fixpoint decode_fields (fields : list (string * json)) (g : GameState) : error + GameState :=
  match fields with
  | [] => inr g
  | kv :: rest =>
      match decode_field g kv with
      | inl e => inl e
      | inr g' => decode_fields rest g'
      end
  end.

(** [json.Unmarshal(bytes, &gameState)] into a zero [GameState]. *)
Definition json_Unmarshal_GameState (p : payload) : error + GameState :=
  match p with
  | NotJSON _ => inl SyntaxError
  | JSONText JNull => inr (mkGameState "" 0)
  | JSONText (JObject fields) => decode_fields fields (mkGameState "" 0)
  | JSONText _ => inl (UnmarshalTypeError "GameState")
  end.

Definition json_of_GameState (g : GameState) : json :=
  JObject [("username", JString (Username g)); ("score", JNumber (IntLit (Score g)))].

(** [json.Marshal(GameState{...})]: never fails. *)
Definition json_Marshal_GameState (g : GameState) : payload :=
  JSONText (json_of_GameState g).

(** Whether every number of a value fits float64, as decoding into
    [interface{}] requires. *)
Fixpoint json_in_float64 (j : json) : bool :=
  match j with
  | JNumber HugeLit => false
  | JArray items => forallb json_in_float64 items
  | JObject fields => forallb (fun kv => json_in_float64 (snd kv)) fields
  | _ => true
  end.

(** [json.Unmarshal(message, &data)] with [data : map[string]interface{}]:
    the members of the object; [null] leaves the map empty; a number
    outside float64 anywhere in the object is an error. *)
Definition json_Unmarshal_map (p : payload) : error + list (string * json) :=
  match p with
  | NotJSON _ => inl SyntaxError
  | JSONText JNull => inr []
  | JSONText (JObject fields) =>
      if forallb (fun kv => json_in_float64 (snd kv)) fields then inr fields
      else inl (UnmarshalTypeError "number out of range for float64")
  | JSONText _ => inl (UnmarshalTypeError "map[string]interface {}")
  end.

(** [data[key]]: the last member of that name wins, a missing one is nil. *)
Fixpoint map_index (fields : list (string * json)) (key : string) : option json :=
  match fields with
  | [] => None
  | (k, v) :: rest =>
      match map_index rest key with
      | Some v' => Some v'
      | None => if String.eqb k key then Some v else None
      end
  end.

(** [data[key] == "literal"]: an interface value equals a string constant
    when it holds a string of that content. *)
Definition iface_eq_string (v : option json) (lit : string) : bool :=
  match v with
  | Some (JString s) => String.eqb s lit
  | _ => false
  end.

(** ** strings.HasPrefix and strings.Split *)

Fixpoint strings_HasPrefix (s pre : string) : bool :=
  match pre with
  | EmptyString => true
  | String c pre' =>
      match s with
      | EmptyString => false
      | String d s' => Ascii.eqb c d && strings_HasPrefix s' pre'
      end
  end.

(** [strings.Split(s, sep)] for a one-character separator, the only kind
    the program passes. *)
Fixpoint strings_Split (s : string) (sep : ascii) : list string :=
  match s with
  | EmptyString => [EmptyString]
  | String c s' =>
      if Ascii.eqb c sep then EmptyString :: strings_Split s' sep
      else
        match strings_Split s' sep with
        | [] => [String c EmptyString]
        | hd :: tl => String c hd :: tl
        end
  end.

Definition userKey (username : string) : string := "user:" ++ username.

(** ** The world the handlers run in *)

(** A [*websocket.Conn]: pointers are compared by identity. *)
Definition Conn : Type := positive.

Definition TextMessage : Z := 1.
Definition BinaryMessage : Z := 2.

Record Redis : Type := mkRedis {
  keyspace : gmap string payload;
  (** the server's SCAN iteration: cursor to page of keys and next cursor *)
  scanPage : N -> list string * N;
  (** the failure, if any, that hits the n-th command sent by this client *)
  fault : nat -> option error;
  served : nat
}.

Record Socket : Type := mkSocket {
  (** frames that arrived and were not read yet: (messageType, bytes) *)
  incoming : list (Z * payload);
  (** the read error once [incoming] is drained, if the peer went away *)
  hangup : option error;
  (** the error of every write, if writes to the peer fail *)
  writeErr : option error;
  closed : bool
}.

Inductive Event : Type :=
| RedisGet (key : string) (reply : error + payload)
| RedisSet (key : string) (value : payload) (reply : option error)
| RedisScan (cursor : N) (count : Z) (reply : error + (list string * N))
| WsRead (c : Conn) (reply : error + (Z * payload))
| WsWrite (c : Conn) (messageType : Z) (data : payload) (reply : option error)
| WsClose (c : Conn)
| Println (text : string).

Record World : Type := mkWorld {
  client : Redis;
  leaderboardSubscribers : gset Conn;
  sockets : gmap Conn Socket;
  trace : list Event
}.

(** State passing: a call maps the world to its result and the new world. *)
Definition M (A : Type) : Type := World -> A * World.

Definition ret {A} (a : A) : M A := fun w => (a, w).

Definition bind {A B} (m : M A) (k : A -> M B) : M B :=
  fun w => let '(a, w') := m w in k a w'.

Notation "x <- m ;; k" := (bind m (fun x => k))
  (at level 100, m at next level, right associativity).
Notation "m ;;; k" := (bind m (fun _ => k))
  (at level 100, right associativity).

Definition emit (ev : Event) : M unit :=
  fun w => (tt, mkWorld (client w) (leaderboardSubscribers w) (sockets w) (trace w ++ [ev])).

Definition fmt_Println (text : string) : M unit := emit (Println text).

(** *** go-redis *)

(** Sends one command: the fault schedule decides whether it gets through. *)
Definition send_command : M (option error) :=
  fun w =>
    let r := client w in
    (fault r (served r),
     mkWorld (mkRedis (keyspace r) (scanPage r) (fault r) (S (served r)))
             (leaderboardSubscribers w) (sockets w) (trace w)).

Definition keyspace_read : M (gmap string payload) := fun w => (keyspace (client w), w).

Definition keyspace_write (key : string) (value : payload) : M unit :=
  fun w =>
    let r := client w in
    (tt, mkWorld (mkRedis (<[key := value]> (keyspace r)) (scanPage r) (fault r) (served r))
                 (leaderboardSubscribers w) (sockets w) (trace w)).

(** [client.Get(ctx, key).Result()]: the value, [redis.Nil] for an absent
    key, or the failure of the command. *)
Definition client_Get (key : string) : M (error + payload) :=
  f <- send_command ;;
  ks <- keyspace_read ;;
  let reply :=
    match f with
    | Some e => inl e
    | None => match ks !! key with
              | Some v => inr v
              | None => inl redis_Nil
              end
    end in
  emit (RedisGet key reply) ;;;
  ret reply.

(** [StringCmd.Val()]: the value, the empty string after an error. *)
Definition Val (reply : error + payload) : payload :=
  match reply with
  | inr v => v
  | inl _ => NotJSON ""
  end.

(** [client.Set(ctx, key, value, 0).Err()] *)
Definition client_Set (key : string) (value : payload) : M (option error) :=
  f <- send_command ;;
  match f with
  | Some e => emit (RedisSet key value (Some e)) ;;; ret (Some e)
  | None => keyspace_write key value ;;; emit (RedisSet key value None) ;;; ret None
  end.

(** [client.Scan(ctx, cursor, "", count).Result()]: with the empty pattern
    no MATCH is sent, so the page is not filtered. *)
Definition client_Scan (cursor : N) (count : Z) : M (error + (list string * N)) :=
  f <- send_command ;;
  page <- (fun w => (scanPage (client w) cursor, w)) ;;
  let reply := match f with Some e => inl e | None => inr page end in
  emit (RedisScan cursor count reply) ;;;
  ret reply.

(** *** gorilla/websocket *)

Definition deadSocket : Socket := mkSocket [] (Some (NetError "unknown connection")) (Some (NetError "unknown connection")) true.

Definition socket_of (w : World) (c : Conn) : Socket := default deadSocket (sockets w !! c).

Definition set_socket (c : Conn) (s : Socket) : M unit :=
  fun w => (tt, mkWorld (client w) (leaderboardSubscribers w) (<[c := s]> (sockets w)) (trace w)).

Definition errClosed : error := NetError "use of closed network connection".

(** [conn.WriteMessage(messageType, data)] *)
Definition WriteMessage (c : Conn) (messageType : Z) (data : payload) : M (option error) :=
  s <- (fun w => (socket_of w c, w)) ;;
  let reply := if closed s then Some errClosed else writeErr s in
  emit (WsWrite c messageType data reply) ;;;
  ret reply.

(** What a call of [conn.ReadMessage()] does: it blocks, no frame being
    pending on a connection that is still up; it returns a frame or an
    error; or it panics. *)
Inductive ReadResult : Type :=
| ReadBlocks
| ReadReturns (reply : error + (Z * payload))
| ReadPanics (msg : string).

(** The connection counts the reads that failed ([readErrCount]); here
    they are counted in the trace. *)
Fixpoint failed_read_count (t : list Event) (c : Conn) : nat :=
  match t with
  | [] => O
  | WsRead c' (inl _) :: t' =>
      ((if bool_decide (c' = c) then 1 else 0) + failed_read_count t' c)%nat
  | _ :: t' => failed_read_count t' c
  end.

Definition repeatedRead : string := "repeated read on failed websocket connection".

(** A read that fails: the 1000th failed read of a connection panics
    instead of returning the error. *)
Definition read_fails (c : Conn) (e : error) : M ReadResult :=
  readErrCount <- (fun w => (S (failed_read_count (trace w) c), w)) ;;
  if (1000 <=? readErrCount)%nat then ret (ReadPanics repeatedRead)
  else emit (WsRead c (inl e)) ;;; ret (ReadReturns (inl e)).

(** [conn.ReadMessage()] *)
Definition ReadMessage (c : Conn) : M ReadResult :=
  s <- (fun w => (socket_of w c, w)) ;;
  if closed s then read_fails c errClosed
  else
    match incoming s with
    | frame :: rest =>
        set_socket c (mkSocket rest (hangup s) (writeErr s) (closed s)) ;;;
        emit (WsRead c (inr frame)) ;;;
        ret (ReadReturns (inr frame))
    | [] =>
        match hangup s with
        | Some e => read_fails c e
        | None => ret ReadBlocks
        end
    end.

(** [conn.Close()] *)
Definition Close (c : Conn) : M unit :=
  s <- (fun w => (socket_of w c, w)) ;;
  set_socket c (mkSocket (incoming s) (hangup s) (writeErr s) true) ;;;
  emit (WsClose c).

(** *** The registry: [leaderboardSubscribers map[*websocket.Conn]bool] *)

Definition subscribers_add (c : Conn) : M unit :=
  fun w => (tt, mkWorld (client w) ({[c]} ∪ leaderboardSubscribers w) (sockets w) (trace w)).

Definition subscribers_delete (c : Conn) : M unit :=
  fun w => (tt, mkWorld (client w) (leaderboardSubscribers w ∖ {[c]}) (sockets w) (trace w)).

Definition subscribers_has (c : Conn) : M bool :=
  fun w => (bool_decide (c ∈ leaderboardSubscribers w), w).

(** ** What the Go runtime leaves open *)

(** [sort.Slice] promises a sorted rearrangement and no stability; the
    order in which [range] visits a map is unspecified; the result of
    [int(f)] for a float64 f outside the range of int depends on the
    implementation. *)
Class GoRuntime : Type := {
  sort_Slice : (GameState -> GameState -> bool) -> list GameState -> list GameState;
  range_order : gset Conn -> list Conn;
  int_out_of_range : Z -> Z
}.

(** The result of [sort.Slice] is a rearrangement of the slice in which no
    element is less than the one before it, for a [less] that is
    asymmetric; [range] visits every key of the map once; a conversion to
    int yields an int. *)
Class GoRuntimeLaws (rt : GoRuntime) : Prop := {
  sort_Slice_perm : forall less l, sort_Slice less l ≡ₚ l;
  sort_Slice_sorted : forall less l,
    (forall a b, less a b = true -> less b a = false) ->
    Sorted (fun a b => less b a = false) (sort_Slice less l);
  range_order_perm : forall s, range_order s ≡ₚ elements s;
  int_out_of_range_int64 : forall t, in_int64 (int_out_of_range t) = true
}.

(** What [sort.Slice] runs on slices of at most 12 elements: insertion
    sort.  The element at i moves left while it is less than its left
    neighbour; [sorted_rev] is the part left of i, nearest element first. *)
Fixpoint insert_left (less : GameState -> GameState -> bool) (x : GameState)
    (sorted_rev : list GameState) : list GameState :=
  match sorted_rev with
  | [] => [x]
  | y :: ys => if less x y then y :: insert_left less x ys else x :: y :: ys
  end.

Definition insertionSort (less : GameState -> GameState -> bool) (l : list GameState)
    : list GameState :=
  reverse (fold_left (fun sorted_rev x => insert_left less x sorted_rev) l []).

(** A runtime that sorts by insertion, visits a map in the order of
    [elements] and converts as amd64 does, where every float64 outside the
    range of int gives the least int. *)
#[export] Instance insertionRuntime : GoRuntime := {|
  sort_Slice := insertionSort;
  range_order := elements;
  int_out_of_range := fun _ => (- 2 ^ 63)%Z
|}.

(** ** The program: code shared by the two variants *)

Inductive Run (A : Type) : Type :=
| Returned (a : A)    (* the function returned a *)
| Waiting             (* suspended in a blocking read *)
| OutOfFuel           (* still looping when the fuel ran out *)
| Panicked (msg : string).   (* left by a panic, the deferred calls run *)
Arguments Returned {A} a.
Arguments Waiting {A}.
Arguments OutOfFuel {A}.
Arguments Panicked {A} msg.

(** [json.Marshal] of a [map[string]interface{}] of strings and structs. *)
Definition json_Marshal_map (fields : list (string * json)) : error + payload :=
  inr (JSONText (JObject fields)).

Definition json_Marshal (g : GameState) : error + payload :=
  inr (json_Marshal_GameState g).

Definition fmt_d (z : Z) : string := NilZero.string_of_int (Z.to_int z).

Section Program.
Context {rt : GoRuntime}.

(** The inner loop of [getAllPlayers]: [for _, key := range keys].
    [inl err] is the early [return nil, err]. *)
Fixpoint getAllPlayers_keys (keys : list string) (players : list GameState)
    : M (error + list GameState) :=
  match keys with
  | [] => ret (inr players)
  | key :: rest =>
      if strings_HasPrefix key "user:" then
        if (length (strings_Split key ":") =? 2)%nat then
          reply <- client_Get key ;;
          match json_Unmarshal_GameState (Val reply) with
          | inl err => ret (inl err)
          | inr gameState => getAllPlayers_keys rest (players ++ [gameState])
          end
        else
          fmt_Println ("Invalid key format: " ++ key) ;;;
          getAllPlayers_keys rest players
      else getAllPlayers_keys rest players
  end.

(** The outer [for { ... }].  The short declaration
    [keys, cursor, err := client.Scan(ctx, cursor, ...)] declares a new
    [cursor] in the body ([cursor'] here); the call reads the outer one,
    which nothing assigns, and the exit test reads the new one. *)
Fixpoint getAllPlayers_loop (fuel : nat) (cursor : N) (players : list GameState)
    : M (Run (list GameState * option error)) :=
  match fuel with
  | O => ret OutOfFuel
  | S fuel' =>
      reply <- client_Scan cursor 100 ;;
      match reply with
      | inl err => ret (Returned ([], Some err))
      | inr (keys, cursor') =>
          r <- getAllPlayers_keys keys players ;;
          match r with
          | inl err => ret (Returned ([], Some err))
          | inr players' =>
              if (cursor' =? 0)%N then
                ret (Returned (sort_Slice (fun pi pj => (Score pj <? Score pi)%Z) players', None))
              else getAllPlayers_loop fuel' cursor players'
          end
      end
  end.

Definition getAllPlayers (fuel : nat) : M (Run (list GameState * option error)) :=
  getAllPlayers_loop fuel 0%N [].

(** [for subscriber := range leaderboardSubscribers]: an entry removed
    before it is reached is not produced. *)
Fixpoint range_subscribers (order : list Conn) (body : Conn -> M unit) : M unit :=
  match order with
  | [] => ret tt
  | subscriber :: rest =>
      present <- subscribers_has subscriber ;;
      (if present : bool then body subscriber else ret tt) ;;;
      range_subscribers rest body
  end.

Definition updateScore (username : string) (newScore : Z) : M (option error) :=
  let gameStateData := mkGameState username newScore in
  match json_Marshal (mkGameState username newScore) with
  | inl err => ret (Some err)
  | inr gameStateJSON =>
      err <- client_Set ("user:" ++ username) gameStateJSON ;;
      match err with
      | Some e => ret (Some e)
      | None =>
          match json_Marshal_map [("type", JString "DataUpdated");
                                  ("value", json_of_GameState gameStateData)] with
          | inl err => ret (Some err)
          | inr messageJSON =>
              order <- (fun w => (range_order (leaderboardSubscribers w), w)) ;;
              range_subscribers order (fun subscriber =>
                err <- WriteMessage subscriber TextMessage messageJSON ;;
                match err with
                | Some _ => subscribers_delete subscriber
                | None => ret tt
                end) ;;;
              ret None
          end
      end
  end.

(** [int(score)] for a [score] obtained by [.(float64)] from a number. *)
Definition int_of_float64 (score : number) : Z :=
  let t := float64_trunc score in
  if in_int64 t then t else int_out_of_range t.

(** The [type == "update"] branch of the message loop. *)
Definition handleUpdate (data : list (string * json)) : M unit :=
  vm <- match map_index data "value" with
        | Some (JObject valuemap) => ret valuemap
        | _ => fmt_Println "Error: 'value' field missing or not a map" ;;; ret []
        end ;;
  match map_index vm "username", map_index vm "score" with
  | Some (JString username), Some (JNumber score) =>
      err <- updateScore username (int_of_float64 score) ;;
      match err with
      | Some e => fmt_Println ("err updating score " ++ error_text e)
      | None => ret tt
      end
  | _, _ => fmt_Println "err in map <nil>"
  end.

(** The body of the message loop after a successful read; [true] is the
    [return] of the function. *)
Definition handleMessage (ws : Conn) (messageType : Z) (message : payload) : M bool :=
  if (messageType =? TextMessage)%Z then
    match json_Unmarshal_map message with
    | inl _ => ret false
    | inr data =>
        returned <-
          (if iface_eq_string (map_index data "type") "subscribe"
              && iface_eq_string (map_index data "channel") "leaderboard_updates"
           then
             fmt_Println "Client subscribed to leaderboard updates" ;;;
             match json_Marshal_map [("type", JString "subscription_confirmed")] with
             | inl err => fmt_Println (error_text err) ;;; ret true
             | inr jsonData => WriteMessage ws TextMessage jsonData ;;; ret false
             end
           else ret false) ;;
        if returned : bool then ret true
        else if iface_eq_string (map_index data "type") "update"
        then handleUpdate data ;;; ret false
        else ret false
    end
  else ret false.

(** [for { messageType, message, err := ws.ReadMessage() ... }] *)
Fixpoint handleWebSocket_loop (fuel : nat) (ws : Conn) : M (Run unit) :=
  match fuel with
  | O => ret OutOfFuel
  | S fuel' =>
      r <- ReadMessage ws ;;
      match r with
      | ReadBlocks => ret Waiting
      | ReadPanics msg => ret (Panicked msg)
      | ReadReturns (inl err) =>
          fmt_Println (error_text err) ;;;
          handleWebSocket_loop fuel' ws
      | ReadReturns (inr (messageType, message)) =>
          returned <- handleMessage ws messageType message ;;
          if returned : bool then ret (Returned tt) else handleWebSocket_loop fuel' ws
      end
  end.

(** [handshake] is what [upgrader.Upgrade] returned.  The deferred
    [ws.Close()] runs when the function returns or panics. *)
Definition handleWebSocket (fuel : nat) (handshake : error + Conn) : M (Run unit) :=
  match handshake with
  | inl _ => ret (Returned tt)
  | inr ws =>
      subscribers_add ws ;;;
      r <- handleWebSocket_loop fuel ws ;;
      match r with
      | Returned _ => Close ws ;;; ret (Returned tt)
      | Panicked msg => Close ws ;;; ret (Panicked msg)
      | Waiting => ret Waiting
      | OutOfFuel => ret OutOfFuel
      end
  end.

End Program.

(** ** The add-user handler, which differs between the variants *)

Record Request : Type := mkRequest { Method : string; Body : payload }.

Inductive ResponseBody : Type :=
| NoBody
| Text (s : string)
| Json (j : json).

(** What the handler left in its [http.ResponseWriter]. *)
Record Response : Type := mkResponse {
  Header : list (string * string);
  StatusCode : Z;
  Written : ResponseBody
}.

Definition StatusOK : Z := 200.
Definition StatusBadRequest : Z := 400.
Definition StatusInternalServerError : Z := 500.
Definition MethodOptions : string := "OPTIONS".

Definition corsOrigin : list (string * string) := [("Access-Control-Allow-Origin", "*")].

Definition preflight : Response :=
  mkResponse (corsOrigin ++ [("Access-Control-Allow-Methods", "GET, POST, OPTIONS");
                             ("Access-Control-Allow-Headers", "Content-Type")])
             StatusOK NoBody.

Definition newline : string := String (ascii_of_nat 10) EmptyString.

(** [http.Error(w, msg, code)] *)
Definition http_Error (header : list (string * string)) (msg : string) (code : Z) : Response :=
  mkResponse (header ++ [("Content-Type", "text/plain; charset=utf-8");
                         ("X-Content-Type-Options", "nosniff")])
             code (Text (msg ++ newline)).

(** [UserResponse] carries no field tags: the members are named after the
    Go fields. *)
Definition json_of_UserResponse (r : UserResponse) : json :=
  JObject [("Username", JString (respUsername r));
           ("Score", JNumber (IntLit (respScore r)));
           ("State", JString (respState r))].

(** [json.NewEncoder(w).Encode(response)] after setting the content type. *)
Definition respond_json (header : list (string * string)) (r : UserResponse) : Response :=
  mkResponse (header ++ [("Content-Type", "application/json")]) StatusOK
             (Json (json_of_UserResponse r)).

(** The variant configured from the environment (the first [server.go]). *)
Module EnvServer.

Definition addUser (r : Request) : M Response :=
  if String.eqb (Method r) MethodOptions then ret preflight
  else
    match json_Unmarshal_GameState (Body r) with
    | inl _ => ret (http_Error corsOrigin "Invalid request body" StatusBadRequest)
    | inr user =>
        let usernameKey := "user:" ++ Username user in
        reply <- client_Get usernameKey ;;
        match reply with
        | inr userGameState =>
            match json_Unmarshal_GameState userGameState with
            | inl _ => ret (http_Error corsOrigin "Internal server error" StatusInternalServerError)
            | inr existingUser =>
                ret (mkResponse corsOrigin StatusOK
                       (Text ("User " ++ Username user ++ " already exists with a score of "
                              ++ fmt_d (Score existingUser))))
            end
        | inl _ =>
            match json_Marshal user with
            | inl _ => ret (http_Error corsOrigin "Internal server error" StatusInternalServerError)
            | inr gameStateJSON =>
                err <- client_Set usernameKey gameStateJSON ;;
                match err with
                | Some _ => ret (http_Error corsOrigin "Failed to add user" StatusInternalServerError)
                | None =>
                    ret (mkResponse corsOrigin StatusOK
                           (Text ("User " ++ Username user ++ " added successfully!")))
                end
            end
        end
    end.

End EnvServer.

(** The variant with literal credentials (the second [server.go]). *)
Module LiteralServer.

Definition addUser (r : Request) : M Response :=
  if String.eqb (Method r) MethodOptions then ret preflight
  else
    match json_Unmarshal_GameState (Body r) with
    | inl _ => ret (http_Error corsOrigin "Invalid request body" StatusBadRequest)
    | inr user =>
        let usernameKey := "user:" ++ Username user in
        reply <- client_Get usernameKey ;;
        match reply with
        | inr userGameState =>
            match json_Unmarshal_GameState userGameState with
            | inl _ => ret (http_Error corsOrigin "Internal server error" StatusInternalServerError)
            | inr existingUser =>
                let response :=
                  mkUserResponse (Username existingUser) (Score existingUser) "already exists" in
                ret (respond_json corsOrigin response)
            end
        | inl _ =>
            let user := mkGameState (Username user) 0 in
            let response := mkUserResponse (Username user) (Score user) "newly added" in
            match json_Marshal user with
            | inl _ => ret (http_Error corsOrigin "Internal server error" StatusInternalServerError)
            | inr gameStateJSON =>
                err <- client_Set usernameKey gameStateJSON ;;
                match err with
                | Some _ => ret (http_Error corsOrigin "Failed to add user" StatusInternalServerError)
                | None => ret (respond_json corsOrigin response)
                end
            end
        end
    end.

End LiteralServer.

(** ** The read handlers, the same in both variants *)

Definition StatusNotFound : Z := 404.
Definition MethodGet : string := "GET".

(** A request together with the query of its URL. *)
Record URLRequest : Type := mkURLRequest { Req : Request; Query : list (string * string) }.

(** [r.URL.Query().Get(key)]: the first value given for the key, the empty
    string when there is none. *)
Fixpoint url_Values_Get (query : list (string * string)) (key : string) : string :=
  match query with
  | [] => ""
  | (k, v) :: rest => if String.eqb k key then v else url_Values_Get rest key
  end.

(** What a read handler left in its [http.ResponseWriter].  [Fprintf] is
    the status 200 answer written by [fmt.Fprintf(w, string(userJSON))]:
    the JSON text is passed as the format string, so the client receives it
    unchanged only when it holds no percent sign. *)
Inductive Answer : Type :=
| Wrote (r : Response)
| Fprintf (header : list (string * string)) (format : payload).

(** A handler that returns without writing: net/http answers 200 with an
    empty body. *)
Definition nothingWritten : Response := mkResponse corsOrigin StatusOK NoBody.

Definition jsonHeader : list (string * string) :=
  corsOrigin ++ [("Content-Type", "application/json")].

Definition getUser (r : URLRequest) : M Answer :=
  if String.eqb (Method (Req r)) MethodOptions then ret (Wrote preflight)
  else if String.eqb (Method (Req r)) MethodGet then
    let username := url_Values_Get (Query r) "username" in
    if String.eqb username "" then
      ret (Wrote (http_Error corsOrigin "Missing username parameter" StatusBadRequest))
    else
      reply <- client_Get ("user:" ++ username) ;;
      match reply with
      | inl redis_Nil => ret (Wrote (http_Error corsOrigin "User not found" StatusNotFound))
      | inl _ => ret (Wrote (http_Error corsOrigin "Failed to get user" StatusInternalServerError))
      | inr gameStateJSON =>
          match json_Unmarshal_GameState gameStateJSON with
          | inl _ =>
              ret (Wrote (http_Error corsOrigin "Internal server error" StatusInternalServerError))
          | inr user =>
              match json_Marshal user with
              | inl _ =>
                  ret (Wrote (http_Error corsOrigin "Internal server error" StatusInternalServerError))
              | inr userJSON => ret (Fprintf jsonHeader userJSON)
              end
          end
      end
  else ret (Wrote nothingWritten).

(** [json.Marshal(players)] for a [[]GameState]: a nil slice, which is what
    [getAllPlayers] returns when it appended nothing, encodes as [null]. *)
Definition json_Marshal_players (players : list GameState) : error + payload :=
  inr (JSONText match players with
                | [] => JNull
                | _ :: _ => JArray (map json_of_GameState players)
                end).

Definition getuserdetails `{GoRuntime} (fuel : nat) (r : Request) : M (Run Answer) :=
  if String.eqb (Method r) MethodOptions then ret (Returned (Wrote preflight))
  else if String.eqb (Method r) MethodGet then
    res <- getAllPlayers fuel ;;
    match res with
    | Returned (players, Some _) =>
        ret (Returned (Wrote (http_Error corsOrigin "Internal server error"
                                         StatusInternalServerError)))
    | Returned (players, None) =>
        match json_Marshal_players players with
        | inl _ =>
            ret (Returned (Wrote (http_Error corsOrigin "Internal server error"
                                             StatusInternalServerError)))
        | inr userJSON => ret (Returned (Fprintf jsonHeader userJSON))
        end
    | Waiting => ret Waiting
    | OutOfFuel => ret OutOfFuel
    | Panicked msg => ret (Panicked msg)
    end
  else ret (Returned (Wrote nothingWritten)).

(** A client asking for /get-user?username=... *)
Definition lookupRequest (username : string) : URLRequest :=
  mkURLRequest (mkRequest "GET" (NotJSON "")) [("username", username)].

Definition listRequest : Request := mkRequest "GET" (NotJSON "").

(** ** Vocabulary of the statements *)

Local Open Scope list_scope.

(** The reply a write to [c] gets in [w]. *)
Definition write_reply (w : World) (c : Conn) : option error :=
  if closed (socket_of w c) then Some errClosed else writeErr (socket_of w c).

(** The notification frame pushed for a record. *)
Definition dataUpdated (g : GameState) : payload :=
  JSONText (JObject [("type", JString "DataUpdated"); ("value", json_of_GameState g)]).

Definition push_event (w : World) (data : payload) (c : Conn) : Event :=
  WsWrite c TextMessage data (write_reply w c).

(** The body of the [range] loop of [updateScore]. *)
Definition push_or_drop (data : payload) (subscriber : Conn) : M unit :=
  err <- WriteMessage subscriber TextMessage data ;;
  match err with
  | Some _ => subscribers_delete subscriber
  | None => ret tt
  end.

(** The store as a later world sees it: only the command counter moved. *)
Definition same_store (w w' : World) : Prop :=
  keyspace (client w') = keyspace (client w) /\
  scanPage (client w') = scanPage (client w) /\
  fault (client w') = fault (client w).

Definition get_reply (w : World) (key : string) : error + payload :=
  match fault (client w) (served (client w)) with
  | Some e => inl e
  | None => match keyspace (client w) !! key with
            | Some v => inr v
            | None => inl redis_Nil
            end
  end.

Definition scan_reply (w : World) (cursor : N) : error + (list string * N) :=
  match fault (client w) (served (client w)) with
  | Some e => inl e
  | None => inr (scanPage (client w) cursor)
  end.

(** The two tests a key passes before its value is read. *)
Definition wellFormedKey (key : string) : bool :=
  strings_HasPrefix key "user:" && (length (strings_Split key ":") =? 2)%nat.

(** The error an event stands for, if it is a failed page fetch or the
    read of a value that does not decode. *)
Definition failure_of (ev : Event) : option error :=
  match ev with
  | RedisScan _ _ (inl e) => Some e
  | RedisGet _ reply =>
      match json_Unmarshal_GameState (Val reply) with
      | inl e => Some e
      | inr _ => None
      end
  | _ => None
  end.

Definition scan_cursor_zero (ev : Event) : Prop :=
  match ev with
  | RedisScan cursor _ _ => cursor = 0%N
  | _ => True
  end.

(** The records stored in [w] under well-formed keys. *)
Definition stored (w : World) (recs : list GameState) : Prop :=
  forall r, In r recs ->
    wellFormedKey (userKey (Username r)) = true /\
    keyspace (client w) !! userKey (Username r) = Some (json_Marshal_GameState r).

Definition reachable (w : World) : Prop := forall n, fault (client w) n = None.

(** The type discriminator of a frame: the string under "type" when the
    frame decodes to an object that has one. *)
Definition type_of (message : payload) : option string :=
  match json_Unmarshal_map message with
  | inr data =>
      match map_index data "type" with
      | Some (JString s) => Some s
      | _ => None
      end
  | inl _ => None
  end.

(** The events of a loop that reads a failed connection n times. *)
Fixpoint failed_reads (n : nat) (ws : Conn) (e : error) : list Event :=
  match n with
  | O => []
  | S n' => WsRead ws (inl e) :: Println (error_text e) :: failed_reads n' ws e
  end.

Definition newlyAdded (u : string) : Response :=
  respond_json corsOrigin (mkUserResponse u 0 "newly added").

Definition alreadyExists (u : string) (score : Z) : Response :=
  respond_json corsOrigin (mkUserResponse u score "already exists").

Definition addedText (u : string) : Response :=
  mkResponse corsOrigin StatusOK (Text ("User " ++ u ++ " added successfully!")).

Definition existsText (u : string) (score : Z) : Response :=
  mkResponse corsOrigin StatusOK
    (Text ("User " ++ u ++ " already exists with a score of " ++ fmt_d score)).

(** What a call that finds no readable record does, in either variant:
    [stored] is the record it writes, [answer] its response. *)
Definition creates (handler : Request -> M Response) (r : Request) (w : World)
    (e : error) (key : string) (stored : GameState) (answer : Response) : Prop :=
  (handler r w).1 = answer /\
  keyspace (client (handler r w).2) = <[key := json_Marshal_GameState stored]> (keyspace (client w)) /\
  fault (client (handler r w).2) = fault (client w) /\
  trace (handler r w).2 =
    trace w ++ [RedisGet key (inl e); RedisSet key (json_Marshal_GameState stored) None].

(** What a call that finds the record of [u] does: it answers and leaves
    the store as it is. *)
Definition reports (handler : Request -> M Response) (r : Request) (w : World)
    (answer : Response) : Prop :=
  (handler r w).1 = answer /\
  keyspace (client (handler r w).2) = keyspace (client w) /\
  fault (client (handler r w).2) = fault (client w).

(** The number of occurrences of a character in a string. *)
Fixpoint count_char (c : ascii) (s : string) : nat :=
  match s with
  | EmptyString => O
  | String d s' => ((if Ascii.eqb d c then 1 else 0) + count_char c s')%nat
  end.

(** A later world in which nothing but the trace and the command counter
    has moved. *)
Definition untouched (w w' : World) : Prop :=
  keyspace (client w') = keyspace (client w) /\
  scanPage (client w') = scanPage (client w) /\
  fault (client w') = fault (client w) /\
  leaderboardSubscribers w' = leaderboardSubscribers w /\
  sockets w' = sockets w /\
  (served (client w) <= served (client w'))%nat.

Definition key_of (r : GameState) : string := userKey (Username r).

Definition descending (players : list GameState) : Prop :=
  StronglySorted (fun a b => (Score b <= Score a)%Z) players.

(** The arguments an update frame carries for [updateScore], when its
    value is an object with a string username and a number score. *)
Definition update_args `{GoRuntime} (data : list (string * json)) : option (string * Z) :=
  match map_index data "value" with
  | Some (JObject valuemap) =>
      match map_index valuemap "username", map_index valuemap "score" with
      | Some (JString username), Some (JNumber score) => Some (username, int_of_float64 score)
      | _, _ => None
      end
  | _ => None
  end.

Definition internalServerError : Response :=
  http_Error corsOrigin "Internal server error" StatusInternalServerError.

Definition userNotFound : Response := http_Error corsOrigin "User not found" StatusNotFound.

Definition failedToGetUser : Response :=
  http_Error corsOrigin "Failed to get user" StatusInternalServerError.

Definition is_Println (ev : Event) : Prop :=
  match ev with
  | Println _ => True
  | _ => False
  end.

Definition subscriptionConfirmed : payload :=
  JSONText (JObject [("type", JString "subscription_confirmed")]).

Definition failedToAddUser : Response :=
  http_Error corsOrigin "Failed to add user" StatusInternalServerError.


(** Frames a client may send. *)
Definition updateFrame (username : string) (score : Z) : payload :=
  JSONText (JObject [("type", JString "update");
                     ("value", JObject [("username", JString username);
                                        ("score", JNumber (IntLit score))])]).

Definition subscribeFrame (channel : string) : payload :=
  JSONText (JObject [("type", JString "subscribe"); ("channel", JString channel)]).

(** Whether the handler was left by a panic. *)
Definition left_by_panic {A} (r : Run A) : bool :=
  match r with
  | Panicked _ => true
  | _ => false
  end.

(** The panic of the read loop, when there was one, is the library's, on
    a connection with 999 failed reads. *)
Definition panic_is_repeated_read {A} (r : Run A) (w : World) (ws : Conn) : Prop :=
  match r with
  | Panicked msg => msg = repeatedRead /\ (999 <= failed_read_count (trace w) ws)%nat
  | _ => True
  end.

(** ** Worlds to run the program in *)

(** A client posting [{username, score}] to /add-user. *)
Definition post (username : string) (score : Z) : Request :=
  mkRequest "POST" (json_Marshal_GameState (mkGameState username score)).

(** The server answering requests one after the other. *)
Fixpoint serve (handler : Request -> M Response) (requests : list Request)
    : M (list Response) :=
  match requests with
  | [] => ret []
  | r :: rest =>
      resp <- handler r ;;
      resps <- serve handler rest ;;
      ret (resp :: resps)
  end.

Definition noFault : nat -> option error := fun _ => None.

Definition onePage (keys : list string) : N -> list string * N := fun _ => (keys, 0%N).

Definition liveSocket : Socket := mkSocket [] None None false.

Definition emptyWorld : World :=
  mkWorld (mkRedis ∅ (onePage []) noFault 0) ∅ ∅ [].

Definition alice10 : GameState := mkGameState "alice" 10.
Definition bob20 : GameState := mkGameState "bob" 20.

Definition twoPlayers : gmap string payload :=
  <[userKey "alice" := json_Marshal_GameState alice10]>
    (<[userKey "bob" := json_Marshal_GameState bob20]> ∅).

Definition brokenPipe : error := NetError "write: broken pipe".

(** Three registered connections; writes to the second one fail. *)
Definition threeSubscribers : World :=
  mkWorld (mkRedis twoPlayers (onePage [userKey "alice"; userKey "bob"]) noFault 0)
          {[1%positive; 2%positive; 3%positive]}
          (<[1%positive := liveSocket]>
             (<[2%positive := mkSocket [] None (Some brokenPipe) false]>
                (<[3%positive := liveSocket]> ∅)))
          [].

(** The same world with a Redis that rejects the next command. *)
Definition storeDown : World :=
  mkWorld (mkRedis twoPlayers (onePage [userKey "alice"; userKey "bob"])
                   (fun _ => Some (StoreError "connection refused")) 0)
          (leaderboardSubscribers threeSubscribers) (sockets threeSubscribers) [].

(** SCAN splits the two keys over two pages: cursor 0 is followed by 1. *)
Definition twoPageScan : N -> list string * N :=
  fun cursor => if (cursor =? 0)%N then ([userKey "alice"], 1%N) else ([userKey "bob"], 0%N).

Definition twoPages : World :=
  mkWorld (mkRedis twoPlayers twoPageScan noFault 0) ∅ ∅ [].

(** The same store; the third command (the second SCAN) fails. *)
Definition twoPagesThenDown : World :=
  mkWorld (mkRedis twoPlayers twoPageScan
                   (fun n => if (n =? 2)%nat then Some (StoreError "i/o timeout") else None) 0)
          ∅ ∅ [].

(** The value under user:bob is not a record. *)
Definition corruptBob : World :=
  mkWorld (mkRedis (<[userKey "bob" := JSONText (JString "bob")]> twoPlayers)
                   (onePage [userKey "alice"; userKey "bob"]) noFault 0)
          ∅ ∅ [].

Definition alice7 : GameState := mkGameState "alice" 7.
Definition bob7 : GameState := mkGameState "bob" 7.

(** Two records of equal score, listed by SCAN in the given order. *)
Definition tiedPlayers (keys : list string) : World :=
  mkWorld (mkRedis (<[userKey "alice" := json_Marshal_GameState alice7]>
                      (<[userKey "bob" := json_Marshal_GameState bob7]> ∅))
                   (onePage keys) noFault 0)
          ∅ ∅ [].

Definition unexpectedEOF : error :=
  NetError "websocket: close 1006 (abnormal closure): unexpected EOF".

(** One registered connection whose peer has gone away. *)
Definition hungUp : World :=
  mkWorld (mkRedis twoPlayers (onePage [userKey "alice"; userKey "bob"]) noFault 0)
          ∅
          (<[1%positive := mkSocket [] (Some unexpectedEOF) (Some brokenPipe) false]> ∅)
          [].

(** One connection with three frames pending: bytes that are no JSON, an
    object without a type, an object of an unknown type. *)
Definition oddFrames : World :=
  mkWorld (mkRedis twoPlayers (onePage [userKey "alice"; userKey "bob"]) noFault 0)
          ∅
          (<[1%positive :=
               mkSocket [(TextMessage, NotJSON "hello");
                         (TextMessage, JSONText (JObject [("channel", JString "leaderboard_updates")]));
                         (TextMessage, JSONText (JObject [("type", JString "ping")]))]
                        None None false]> ∅)
          [].

(** Alice is stored with score 10; the next command fails, later ones
    get through. *)
Definition flakyStore : World :=
  mkWorld (mkRedis twoPlayers (onePage [userKey "alice"; userKey "bob"])
                   (fun n => if (n =? 0)%nat then Some (StoreError "i/o timeout") else None) 0)
          ∅ ∅ [].

(** Beside the two players the store holds a key of another kind and a
    user key with a second separator; SCAN lists all four. *)
Definition mixedKeys : World :=
  mkWorld (mkRedis (<["session:1" := NotJSON "opaque"]>
                      (<[userKey "a:b" := json_Marshal_GameState (mkGameState "a:b" 99)]>
                         twoPlayers))
                   (onePage ["session:1"; userKey "alice"; userKey "a:b"; userKey "bob"])
                   noFault 0)
          ∅ ∅ [].

(** SCAN still lists user:carol, whose key is gone. *)
Definition staleScan : World :=
  mkWorld (mkRedis twoPlayers (onePage [userKey "alice"; userKey "carol"; userKey "bob"])
                   noFault 0)
          ∅ ∅ [].

(** The read gets through, the write that follows does not. *)
Definition writeDown : World :=
  mkWorld (mkRedis twoPlayers (onePage [userKey "alice"; userKey "bob"])
                   (fun n => if (n =? 1)%nat then Some (StoreError "i/o timeout") else None) 0)
          ∅ ∅ [].

(** * Properties *)

(** ** A runtime: insertion sort and [elements] order *)

Section InsertionSort.
Variable less : GameState -> GameState -> bool.
Hypothesis less_asym : forall a b, less a b = true -> less b a = false.

Let noInv : relation GameState := fun a b => less a b = false.

Lemma insert_left_perm x l : insert_left less x l ≡ₚ x :: l.
Proof.
  induction l as [|y ys IH]; simpl; [done|].
  destruct (less x y); [|done].
  rewrite IH. apply perm_swap.
Qed.

Lemma insert_left_HdRel x y l :
  noInv y x -> HdRel noInv y l -> HdRel noInv y (insert_left less x l).
Proof.
  intros Hyx Hhd. destruct l as [|z zs]; simpl.
  - by constructor.
  - destruct (less x z); constructor; [|done]. by inversion Hhd.
Qed.

Lemma insert_left_sorted x l : Sorted noInv l -> Sorted noInv (insert_left less x l).
Proof.
  induction 1 as [|y ys Hs IH Hhd]; simpl.
  - repeat constructor.
  - destruct (less x y) eqn:Hxy.
    + constructor; [done|]. apply insert_left_HdRel; [|done].
      unfold noInv. by apply less_asym.
    + constructor; [by constructor|]. by constructor.
Qed.

Lemma insertion_fold_perm l acc :
  fold_left (fun sorted_rev x => insert_left less x sorted_rev) l acc ≡ₚ l ++ acc.
Proof.
  revert acc. induction l as [|x l IH]; intros acc; simpl; [done|].
  rewrite IH, insert_left_perm. by rewrite Permutation_middle.
Qed.

Lemma insertion_fold_sorted l acc :
  Sorted noInv acc ->
  Sorted noInv (fold_left (fun sorted_rev x => insert_left less x sorted_rev) l acc).
Proof.
  revert acc. induction l as [|x l IH]; intros acc Hacc; simpl; [done|].
  apply IH. by apply insert_left_sorted.
Qed.

Lemma insertionSort_sorted l : Sorted (fun a b => less b a = false) (insertionSort less l).
Proof.
  unfold insertionSort.
  apply (Sorted_reverse noInv). apply insertion_fold_sorted. constructor.
Qed.

End InsertionSort.

Lemma insertionSort_perm less l : insertionSort less l ≡ₚ l.
Proof.
  unfold insertionSort. rewrite reverse_Permutation, insertion_fold_perm.
  by rewrite app_nil_r.
Qed.

#[export] Instance insertionRuntime_laws : GoRuntimeLaws insertionRuntime.
Proof.
  split.
  - apply insertionSort_perm.
  - intros less l Hasym. by apply insertionSort_sorted.
  - done.
  - done.
Qed.

(** ** The broadcast of [updateScore] *)

Section Broadcast.
Context {rt : GoRuntime}.

Lemma push_or_drop_spec data c w :
  let w' := (push_or_drop data c w).2 in
  client w' = client w /\ sockets w' = sockets w /\
  trace w' = trace w ++ [push_event w data c] /\
  leaderboardSubscribers w' =
    match write_reply w c with
    | Some _ => leaderboardSubscribers w ∖ {[c]}
    | None => leaderboardSubscribers w
    end.
Proof.
  unfold push_or_drop, WriteMessage, bind, emit, ret, subscribers_delete, push_event, write_reply.
  simpl. destruct (closed (socket_of w c)); simpl; [done|].
  destruct (writeErr (socket_of w c)); simpl; done.
Qed.

Lemma write_reply_sockets w w' c : sockets w' = sockets w -> write_reply w' c = write_reply w c.
Proof. intros Hs. unfold write_reply, socket_of. by rewrite Hs. Qed.

Lemma range_subscribers_present body c rest w :
  c ∈ leaderboardSubscribers w ->
  range_subscribers (c :: rest) body w = range_subscribers rest body (body c w).2.
Proof.
  intros Hc. simpl. unfold bind, subscribers_has.
  rewrite bool_decide_eq_true_2 by done.
  by destruct (body c w) as [[] w1].
Qed.

(** Visiting handles that are all registered and pairwise distinct pushes
    to each of them once, in the order of the visit, and drops those whose
    push failed. *)
Lemma range_subscribers_spec data (order : list Conn) : forall w,
  NoDup order ->
  (forall c, c ∈ order -> c ∈ leaderboardSubscribers w) ->
  let w' := (range_subscribers order (push_or_drop data) w).2 in
  client w' = client w /\ sockets w' = sockets w /\
  trace w' = trace w ++ map (push_event w data) order /\
  (forall c, c ∈ leaderboardSubscribers w' <->
             c ∈ leaderboardSubscribers w /\ (c ∈ order -> write_reply w c = None)).
Proof.
  induction order as [|c rest IH]; intros w Hnd Hin.
  - simpl. rewrite app_nil_r. split; [done|]. split; [done|]. split; [done|].
    intros c. set_solver.
  - rewrite range_subscribers_present by (apply Hin; left).
    pose proof (push_or_drop_spec data c w) as Hb. simpl in Hb.
    destruct (push_or_drop data c w) as [[] w1] eqn:Hw1. simpl in Hb |- *.
    destruct Hb as (Hc1 & Hs1 & Ht1 & Hl1).
    apply NoDup_cons in Hnd as [Hnotin Hnd].
    specialize (IH w1 Hnd). simpl in IH.
    destruct IH as (Hc2 & Hs2 & Ht2 & Hl2).
    { intros c' Hc'. rewrite Hl1.
      assert (c' ≠ c) by (intros ->; done).
      assert (c' ∈ leaderboardSubscribers w) by (apply Hin; by right).
      destruct (write_reply w c); set_solver. }
    split; [congruence|]. split; [congruence|]. split.
    + rewrite Ht2, Ht1, <- app_assoc. simpl. do 2 f_equal.
      apply map_ext_in. intros c' _. unfold push_event.
      by rewrite (write_reply_sockets w w1).
    + intros c'. rewrite Hl2, Hl1, elem_of_cons.
      rewrite (write_reply_sockets w w1) by done.
      destruct (decide (c' = c)) as [->|Hne].
      * destruct (write_reply w c) eqn:Hr.
        -- split; [set_solver|]. intros [_ Hok]. specialize (Hok (or_introl eq_refl)). done.
        -- split; [intros [? ?]; by split|]. intros [? ?]. split; [done|]. intros; done.
      * destruct (write_reply w c) eqn:Hr.
        -- rewrite elem_of_difference, elem_of_singleton. naive_solver.
        -- naive_solver.
Qed.

End Broadcast.

(** ** C1 and C6: [updateScore] *)

Section UpdateScore.
Context {rt : GoRuntime} {laws : GoRuntimeLaws rt}.

Lemma updateScore_stored username newScore w :
  fault (client w) (served (client w)) = None ->
  let record := mkGameState username newScore in
  let wset := (client_Set (userKey username) (json_Marshal_GameState record) w).2 in
  updateScore username newScore w =
    (None, (range_subscribers (range_order (leaderboardSubscribers w))
              (push_or_drop (dataUpdated record)) wset).2) /\
  leaderboardSubscribers wset = leaderboardSubscribers w /\
  sockets wset = sockets w /\
  keyspace (client wset) = <[userKey username := json_Marshal_GameState record]> (keyspace (client w)) /\
  trace wset = trace w ++ [RedisSet (userKey username) (json_Marshal_GameState record) None].
Proof.
  intros Hok. unfold updateScore, client_Set, send_command, keyspace_write, bind, emit, ret.
  simpl. rewrite Hok. simpl.
  split; [|done].
  match goal with
  | |- (let '(_, w') := ?m in _) = _ =>
      transitivity (@None error, m.2); [by destruct m as [[] w2]|reflexivity]
  end.
Qed.

(** C1. After a successful store write, [updateScore] pushes the
    DataUpdated frame carrying the new record exactly once to each handle
    registered at the call, in some order; the handles whose push failed,
    and only those, leave the registry; the call returns nil whatever the
    pushes did. *)
Theorem updateScore_fanout (username : string) (newScore : Z) (w : World) :
  fault (client w) (served (client w)) = None ->
  let record := mkGameState username newScore in
  let w' := (updateScore username newScore w).2 in
  (updateScore username newScore w).1 = None /\
  keyspace (client w') !! userKey username = Some (json_Marshal_GameState record) /\
  (exists order : list Conn,
      order ≡ₚ elements (leaderboardSubscribers w) /\
      trace w' = trace w
                 ++ RedisSet (userKey username) (json_Marshal_GameState record) None
                 :: map (push_event w (dataUpdated record)) order) /\
  (forall c, c ∈ leaderboardSubscribers w' <->
             c ∈ leaderboardSubscribers w /\ write_reply w c = None).
Proof.
  intros Hok record w'.
  destruct (updateScore_stored username newScore w Hok) as (Heq & Hl & Hs & Hk & Ht).
  change (mkGameState username newScore) with record in Heq, Hl, Hs, Hk, Ht.
  set (wset := (client_Set (userKey username) (json_Marshal_GameState record) w).2) in *.
  pose proof (range_order_perm (leaderboardSubscribers w)) as Hperm.
  destruct (range_subscribers_spec (dataUpdated record)
              (range_order (leaderboardSubscribers w)) wset) as (Hc2 & Hs2 & Ht2 & Hl2).
  { rewrite Hperm. apply NoDup_elements. }
  { intros c. rewrite Hperm, Hl. apply elem_of_elements. }
  subst w'. rewrite Heq. simpl.
  split; [done|]. split.
  { rewrite Hc2, Hk. apply lookup_insert_eq. }
  split.
  - exists (range_order (leaderboardSubscribers w)). split; [done|].
    rewrite Ht2, Ht, <- app_assoc. simpl. do 2 f_equal.
    apply map_ext_in. intros c _. unfold push_event.
    by rewrite (write_reply_sockets w wset).
  - intros c. rewrite Hl2, Hl, (write_reply_sockets w wset) by done.
    rewrite Hperm, elem_of_elements. naive_solver.
Qed.

(** C6. When the store write fails, [updateScore] returns that error and
    has done nothing else: the world differs only by the failed SET in the
    trace and the command counter, so no frame was pushed and the registry
    is as it was. *)
Theorem updateScore_store_failure (username : string) (newScore : Z) (w : World) (e : error) :
  fault (client w) (served (client w)) = Some e ->
  let record := mkGameState username newScore in
  updateScore username newScore w =
    (Some e,
     mkWorld (mkRedis (keyspace (client w)) (scanPage (client w)) (fault (client w))
                      (S (served (client w))))
             (leaderboardSubscribers w) (sockets w)
             (trace w ++ [RedisSet (userKey username) (json_Marshal_GameState record) (Some e)])).
Proof.
  intros Hfail. unfold updateScore, client_Set, send_command, bind, emit, ret.
  simpl. by rewrite Hfail.
Qed.

End UpdateScore.

Lemma updateScore_fanout_witness :
  (updateScore "alice" 30 threeSubscribers).1 = None /\
  keyspace (client (updateScore "alice" 30 threeSubscribers).2) !! userKey "alice"
    = Some (json_Marshal_GameState (mkGameState "alice" 30)) /\
  (exists order : list Conn,
      order ≡ₚ elements (leaderboardSubscribers threeSubscribers) /\
      trace (updateScore "alice" 30 threeSubscribers).2 =
        trace threeSubscribers
        ++ RedisSet (userKey "alice") (json_Marshal_GameState (mkGameState "alice" 30)) None
        :: map (push_event threeSubscribers (dataUpdated (mkGameState "alice" 30))) order) /\
  (forall c, c ∈ leaderboardSubscribers (updateScore "alice" 30 threeSubscribers).2 <->
             c ∈ leaderboardSubscribers threeSubscribers /\ write_reply threeSubscribers c = None).
Proof. apply (updateScore_fanout "alice" 30 threeSubscribers). reflexivity. Defined.

Lemma updateScore_store_failure_witness :
  (updateScore "alice" 30 storeDown).1 = Some (StoreError "connection refused") /\
  leaderboardSubscribers (updateScore "alice" 30 storeDown).2 = leaderboardSubscribers storeDown /\
  trace (updateScore "alice" 30 storeDown).2 =
    [RedisSet (userKey "alice") (json_Marshal_GameState (mkGameState "alice" 30))
              (Some (StoreError "connection refused"))].
Proof.
  rewrite (updateScore_store_failure "alice" 30 storeDown (StoreError "connection refused"))
    by reflexivity.
  split; [reflexivity|]. split; reflexivity.
Defined.

(** The run of the example, visiting 3, 2, 1: connection 2 is dropped. *)
Example updateScore_threeSubscribers :
  let w' := (updateScore "alice" 30 threeSubscribers).2 in
  trace w' =
    [RedisSet "user:alice" (json_Marshal_GameState (mkGameState "alice" 30)) None;
     WsWrite 3%positive TextMessage (dataUpdated (mkGameState "alice" 30)) None;
     WsWrite 2%positive TextMessage (dataUpdated (mkGameState "alice" 30)) (Some brokenPipe);
     WsWrite 1%positive TextMessage (dataUpdated (mkGameState "alice" 30)) None] /\
  elements (leaderboardSubscribers w') = [3%positive; 1%positive].
Proof. vm_compute. split; reflexivity. Qed.

(** ** The store commands *)

Lemma same_store_refl w : same_store w w.
Proof. by repeat split. Qed.

Lemma same_store_trans w1 w2 w3 : same_store w1 w2 -> same_store w2 w3 -> same_store w1 w3.
Proof. intros (?&?&?) (?&?&?). repeat split; congruence. Qed.

Lemma client_Get_spec key w :
  (client_Get key w).1 = get_reply w key /\
  trace (client_Get key w).2 = trace w ++ [RedisGet key (get_reply w key)] /\
  same_store w (client_Get key w).2 /\
  leaderboardSubscribers (client_Get key w).2 = leaderboardSubscribers w.
Proof. by repeat split. Qed.

Lemma client_Scan_spec cursor count w :
  (client_Scan cursor count w).1 = scan_reply w cursor /\
  trace (client_Scan cursor count w).2 = trace w ++ [RedisScan cursor count (scan_reply w cursor)] /\
  same_store w (client_Scan cursor count w).2 /\
  leaderboardSubscribers (client_Scan cursor count w).2 = leaderboardSubscribers w.
Proof. by repeat split. Qed.

Lemma json_roundtrip g : json_Unmarshal_GameState (json_Marshal_GameState g) = inr g.
Proof. by destruct g. Qed.

(** ** C2, C3 and C7: [getAllPlayers] *)

Section GetAllPlayers.
Context {rt : GoRuntime}.

Lemma getAllPlayers_keys_cons key rest players w :
  getAllPlayers_keys (key :: rest) players w =
    if wellFormedKey key then
      match json_Unmarshal_GameState (Val (client_Get key w).1) with
      | inl err => (inl err, (client_Get key w).2)
      | inr gameState => getAllPlayers_keys rest (players ++ [gameState]) (client_Get key w).2
      end
    else if strings_HasPrefix key "user:" then
      getAllPlayers_keys rest players (fmt_Println ("Invalid key format: " ++ key) w).2
    else getAllPlayers_keys rest players w.
Proof.
  unfold wellFormedKey. cbn [getAllPlayers_keys].
  destruct (strings_HasPrefix key "user:"); [|done].
  destruct (length (strings_Split key ":") =? 2)%nat; cbn [andb].
  - unfold bind at 1. destruct (client_Get key w) as [reply w1]. cbn [fst snd].
    by destruct (json_Unmarshal_GameState (Val reply)).
  - unfold bind at 1. by destruct (fmt_Println _ w) as [[] w1].
Qed.

Lemma getAllPlayers_loop_step fuel cursor players w :
  getAllPlayers_loop (S fuel) cursor players w =
    let w1 := (client_Scan cursor 100 w).2 in
    match (client_Scan cursor 100 w).1 with
    | inl err => (Returned ([], Some err), w1)
    | inr (keys, cursor') =>
        let w2 := (getAllPlayers_keys keys players w1).2 in
        match (getAllPlayers_keys keys players w1).1 with
        | inl err => (Returned ([], Some err), w2)
        | inr players' =>
            if (cursor' =? 0)%N then
              (Returned (sort_Slice (fun pi pj => (Score pj <? Score pi)%Z) players', None), w2)
            else getAllPlayers_loop fuel cursor players' w2
        end
    end.
Proof.
  cbn [getAllPlayers_loop]. unfold bind at 1.
  destruct (client_Scan cursor 100 w) as [[err|[keys cursor']] w1]; cbn [fst snd]; [done|].
  unfold bind at 1.
  destruct (getAllPlayers_keys keys players w1) as [[err|players'] w2]; cbn [fst snd]; [done|].
  by destruct (cursor' =? 0)%N.
Qed.

(** What the inner loop leaves in the trace: reads only, and a read whose
    value does not decode only as the last event of an early return. *)
Lemma getAllPlayers_keys_trace keys : forall players w,
  exists new,
    trace (getAllPlayers_keys keys players w).2 = trace w ++ new /\
    Forall scan_cursor_zero new /\
    match (getAllPlayers_keys keys players w).1 with
    | inl err => forall ev e, In ev new -> failure_of ev = Some e -> e = err
    | inr _ => forall ev, In ev new -> failure_of ev = None
    end.
Proof.
  induction keys as [|key rest IH]; intros players w.
  - exists []. cbn. rewrite app_nil_r.
    split; [done|]. split; [constructor|]. intros ev [].
  - rewrite getAllPlayers_keys_cons.
    destruct (wellFormedKey key).
    + destruct (client_Get_spec key w) as (Hr & Ht & _).
      destruct (json_Unmarshal_GameState (Val (client_Get key w).1)) as [err|g] eqn:Hdec.
      * exists [RedisGet key (get_reply w key)]. cbn [fst snd].
        split; [done|]. split; [by repeat constructor|].
        intros ev e [<-|[]]. cbn. rewrite <- Hr, Hdec. congruence.
      * destruct (IH (players ++ [g]) (client_Get key w).2) as (new & Ht' & Hz & Hf).
        exists (RedisGet key (get_reply w key) :: new).
        split; [by rewrite Ht', Ht, <- app_assoc|].
        split; [by constructor|].
        assert (failure_of (RedisGet key (get_reply w key)) = None) as Hnone
          by (cbn; by rewrite <- Hr, Hdec).
        destruct (getAllPlayers_keys rest (players ++ [g]) (client_Get key w).2).1
          as [err'|players'].
        -- intros ev e [<-|Hin]; [congruence|eauto].
        -- intros ev [<-|Hin]; [done|eauto].
    + destruct (strings_HasPrefix key "user:"); [|apply IH].
      destruct (IH players (fmt_Println ("Invalid key format: " ++ key) w).2)
        as (new & Ht' & Hz & Hf).
      exists (Println ("Invalid key format: " ++ key) :: new).
      split; [by rewrite Ht'; cbn; rewrite <- app_assoc|].
      split; [by constructor|].
      destruct (getAllPlayers_keys rest players _).1 as [err'|players'].
      * intros ev e [<-|Hin]; [done|eauto].
      * intros ev [<-|Hin]; [done|eauto].
Qed.

(** What the outer loop leaves in the trace: every page fetch passes the
    cursor the loop was entered with, and the first failure ends the call
    with that error and no records. *)
Lemma getAllPlayers_loop_trace fuel : forall cursor players w,
  exists new,
    trace (getAllPlayers_loop fuel cursor players w).2 = trace w ++ new /\
    Forall (fun ev => cursor = 0%N -> scan_cursor_zero ev) new /\
    (forall ev e, In ev new -> failure_of ev = Some e ->
       (getAllPlayers_loop fuel cursor players w).1 = Returned ([], Some e)) /\
    (forall ps err, (getAllPlayers_loop fuel cursor players w).1 = Returned (ps, Some err) ->
       ps = []).
Proof.
  induction fuel as [|fuel IH]; intros cursor players w.
  - exists []. cbn. rewrite app_nil_r.
    split; [done|]. split; [constructor|]. split; [intros ev e []|done].
  - rewrite getAllPlayers_loop_step. cbv zeta.
    destruct (client_Scan_spec cursor 100 w) as (Hr & Ht & _).
    set (w1 := (client_Scan cursor 100 w).2) in *.
    destruct (client_Scan cursor 100 w).1 as [err|[keys cursor']] eqn:Hscan.
    + exists [RedisScan cursor 100 (scan_reply w cursor)]. cbn [fst snd].
      split; [done|]. split; [by repeat constructor|]. split.
      * intros ev e [<-|[]]. rewrite <- Hr. cbn. congruence.
      * congruence.
    + destruct (getAllPlayers_keys_trace keys players w1) as (new1 & Ht1 & Hz1 & Hf1).
      set (w2 := (getAllPlayers_keys keys players w1).2) in *.
      assert (failure_of (RedisScan cursor 100 (scan_reply w cursor)) = None) as Hnone
        by (by rewrite <- Hr).
      destruct (getAllPlayers_keys keys players w1).1 as [err|players'] eqn:Hkeys.
      * exists (RedisScan cursor 100 (scan_reply w cursor) :: new1). cbn [fst snd].
        split; [by rewrite Ht1, Ht, <- app_assoc|].
        split; [constructor; [done|]; eapply Forall_impl; [exact Hz1|done]|].
        split; [|congruence].
        intros ev e [<-|Hin] Hfail; [congruence|].
        by rewrite (Hf1 ev e Hin Hfail).
      * destruct (cursor' =? 0)%N.
        -- exists (RedisScan cursor 100 (scan_reply w cursor) :: new1). cbn [fst snd].
           split; [by rewrite Ht1, Ht, <- app_assoc|].
           split; [constructor; [done|]; eapply Forall_impl; [exact Hz1|done]|].
           split; [|congruence].
           intros ev e [<-|Hin] Hfail; [congruence|].
           rewrite (Hf1 ev Hin) in Hfail. congruence.
        -- destruct (IH cursor players' w2) as (new2 & Ht2 & Hz2 & Hf2 & Hn2).
           exists (RedisScan cursor 100 (scan_reply w cursor) :: new1 ++ new2).
           split; [rewrite Ht2, Ht1, Ht, <- !app_assoc; done|].
           split.
           { constructor; [done|]. apply Forall_app. split; [|done].
             eapply Forall_impl; [exact Hz1|done]. }
           split; [|done].
           intros ev e [<-|Hin] Hfail; [congruence|].
           apply in_app_or in Hin as [Hin|Hin]; [|eauto].
           rewrite (Hf1 ev Hin) in Hfail. congruence.
Qed.

Lemma stored_same_store w w' recs : same_store w w' -> stored w recs -> stored w' recs.
Proof. intros (Hk & _) Hst r Hr. rewrite Hk. by apply Hst. Qed.

Lemma reachable_same_store w w' : same_store w w' -> reachable w -> reachable w'.
Proof. intros (_ & _ & Hf) Hre n. rewrite Hf. apply Hre. Qed.

Lemma getAllPlayers_keys_stored recs : forall players w,
  reachable w -> stored w recs ->
  (getAllPlayers_keys (map (fun r => userKey (Username r)) recs) players w).1
    = inr (players ++ recs) /\
  same_store w (getAllPlayers_keys (map (fun r => userKey (Username r)) recs) players w).2.
Proof.
  induction recs as [|r recs IH]; intros players w Hre Hst.
  - cbn. rewrite app_nil_r. split; [done|apply same_store_refl].
  - cbn [map]. rewrite getAllPlayers_keys_cons.
    destruct (Hst r (or_introl eq_refl)) as [-> Hlook].
    destruct (client_Get_spec (userKey (Username r)) w) as (Hr & _ & Hsame & _).
    rewrite Hr. unfold get_reply. rewrite Hre, Hlook. cbn [Val].
    rewrite json_roundtrip.
    destruct (IH (players ++ [r]) (client_Get (userKey (Username r)) w).2) as [Hres Hsame'].
    { by eapply reachable_same_store. }
    { eapply stored_same_store; [done|]. intros r' Hr'. apply Hst. by right. }
    rewrite Hres, <- app_assoc. split; [done|].
    by eapply same_store_trans.
Qed.

(** One pass of the outer loop over a page of stored records. *)
Lemma getAllPlayers_page recs cursor cursor' players w :
  reachable w -> stored w recs ->
  scanPage (client w) cursor = (map (fun r => userKey (Username r)) recs, cursor') ->
  exists w2, same_store w w2 /\
    forall fuel,
      getAllPlayers_loop (S fuel) cursor players w =
        if (cursor' =? 0)%N then
          (Returned (sort_Slice (fun pi pj => (Score pj <? Score pi)%Z) (players ++ recs), None), w2)
        else getAllPlayers_loop fuel cursor (players ++ recs) w2.
Proof.
  intros Hre Hst Hpage.
  destruct (client_Scan_spec cursor 100 w) as (Hr & _ & Hsame & _).
  destruct (getAllPlayers_keys_stored recs players (client_Scan cursor 100 w).2)
    as [Hres Hsame'].
  { by eapply reachable_same_store. }
  { by eapply stored_same_store. }
  eexists. split; [by eapply same_store_trans|].
  intros fuel. rewrite getAllPlayers_loop_step. cbv zeta.
  rewrite Hr. unfold scan_reply. rewrite Hre, Hpage, Hres. done.
Qed.

(** A first page with a non-zero cursor is fetched again and again. *)
Lemma getAllPlayers_loop_diverges recs cursor' fuel : forall players w,
  reachable w -> stored w recs ->
  scanPage (client w) 0%N = (map (fun r => userKey (Username r)) recs, cursor') ->
  cursor' ≠ 0%N ->
  (getAllPlayers_loop fuel 0 players w).1 = OutOfFuel.
Proof.
  induction fuel as [|fuel IH]; intros players w Hre Hst Hpage Hne; [done|].
  destruct (getAllPlayers_page recs 0%N cursor' players w Hre Hst Hpage)
    as (w2 & Hsame & Hstep).
  rewrite Hstep. apply N.eqb_neq in Hne. rewrite Hne.
  apply IH; [by eapply reachable_same_store|by eapply stored_same_store| |by apply N.eqb_neq].
  destruct Hsame as (_ & -> & _). done.
Qed.

End GetAllPlayers.

Lemma StronglySorted_weaken {A} (R S : relation A) (l : list A) :
  (forall a b, R a b -> S a b) -> StronglySorted R l -> StronglySorted S l.
Proof.
  intros HRS. induction 1 as [|a l Hs IH Hall]; constructor; [done|].
  eapply Forall_impl; [exact Hall|]. intros b. apply HRS.
Qed.

Section GetAllPlayersClaims.
Context {rt : GoRuntime} {laws : GoRuntimeLaws rt}.

(** C3, as the code has it.  When the first SCAN reply lists the keys of
    the N stored records and carries the zero cursor, and the store answers
    every command, [getAllPlayers] returns with a nil error exactly N
    records, a rearrangement of the stored ones, in descending order of
    score.  Nothing is said about the order of records of equal score. *)
Theorem getAllPlayers_single_page (recs : list GameState) (keys : list string)
    (fuel : nat) (w : World) :
  reachable w ->
  scanPage (client w) 0%N = (keys, 0%N) ->
  keys ≡ₚ map (fun r => userKey (Username r)) recs ->
  stored w recs ->
  exists players,
    (getAllPlayers (S fuel) w).1 = Returned (players, None) /\
    players ≡ₚ recs /\
    length players = length recs /\
    StronglySorted (fun a b => (Score b <= Score a)%Z) players.
Proof.
  intros Hre Hpage Hperm Hst.
  apply Permutation_map_inv in Hperm as (recs' & -> & Hperm').
  assert (stored w recs') as Hst'.
  { intros r Hr. apply Hst. by rewrite Hperm'. }
  destruct (getAllPlayers_page recs' 0%N 0%N [] w Hre Hst' Hpage) as (w2 & _ & Hstep).
  unfold getAllPlayers. rewrite Hstep. cbn [N.eqb fst app].
  set (less := fun pi pj : GameState => (Score pj <? Score pi)%Z).
  exists (sort_Slice less recs').
  pose proof (sort_Slice_perm less recs') as Hsp.
  split; [done|]. split; [by rewrite Hsp, Hperm'|].
  split; [by rewrite Hsp, Hperm'|].
  apply (StronglySorted_weaken (fun a b => less b a = false)).
  { intros a b Hab. unfold less in Hab. lia. }
  apply Sorted_StronglySorted.
  { intros a b c. unfold less. lia. }
  apply sort_Slice_sorted. intros a b. unfold less. lia.
Qed.

(** C7. [getAllPlayers] is fail-fast: once a page fetch has failed, or the
    value read for a key has failed to decode, the call has returned that
    error; and whenever it returns an error it returns no records. *)
Theorem getAllPlayers_fail_fast (fuel : nat) (w : World) :
  (forall new ev e,
      trace (getAllPlayers fuel w).2 = trace w ++ new ->
      In ev new -> failure_of ev = Some e ->
      (getAllPlayers fuel w).1 = Returned ([], Some e)) /\
  (forall players err,
      (getAllPlayers fuel w).1 = Returned (players, Some err) -> players = []).
Proof.
  destruct (getAllPlayers_loop_trace fuel 0%N [] w) as (new' & Ht & _ & Hf & Hn).
  split; [|exact Hn].
  intros new ev e Hnew Hin Hfail.
  unfold getAllPlayers in Hnew. rewrite Ht in Hnew.
  apply app_inv_head in Hnew as <-. eauto.
Qed.

(** Every page fetch of [getAllPlayers] passes the zero cursor. *)
Lemma getAllPlayers_scans_from_zero (fuel : nat) (w : World) :
  exists new, trace (getAllPlayers fuel w).2 = trace w ++ new /\ Forall scan_cursor_zero new.
Proof.
  destruct (getAllPlayers_loop_trace fuel 0%N [] w) as (new & Ht & Hz & _).
  exists new. split; [done|]. eapply Forall_impl; [exact Hz|]. intros ev Hev. by apply Hev.
Qed.

End GetAllPlayersClaims.

Lemma stored_twoPages_alice : stored twoPages [alice10].
Proof. intros r [<-|[]]. split; reflexivity. Qed.

(** C2, at a store whose keys SCAN lists in two pages.  The reply to the
    first fetch carries cursor 1, the next fetch passes 0 again: the call
    fetches the first page for as long as it runs and never returns, and no
    fetch ever passes a non-zero cursor. *)
Theorem getAllPlayers_never_resumes :
  (forall fuel, (getAllPlayers fuel twoPages).1 = OutOfFuel) /\
  (forall fuel, Forall scan_cursor_zero (trace (getAllPlayers fuel twoPages).2)) /\
  trace (getAllPlayers 2 twoPages).2 =
    [RedisScan 0 100 (inr ([userKey "alice"], 1%N));
     RedisGet (userKey "alice") (inr (json_Marshal_GameState alice10));
     RedisScan 0 100 (inr ([userKey "alice"], 1%N));
     RedisGet (userKey "alice") (inr (json_Marshal_GameState alice10))].
Proof.
  split; [|split].
  - intros fuel.
    apply (getAllPlayers_loop_diverges [alice10] 1%N); try done.
    apply stored_twoPages_alice.
  - intros fuel. destruct (getAllPlayers_scans_from_zero fuel twoPages) as (new & -> & Hz).
    exact Hz.
  - vm_compute. reflexivity.
Qed.

Lemma getAllPlayers_single_page_witness :
  exists players,
    (getAllPlayers 1 threeSubscribers).1 = Returned (players, None) /\
    players ≡ₚ [alice10; bob20] /\
    length players = length [alice10; bob20] /\
    StronglySorted (fun a b => (Score b <= Score a)%Z) players.
Proof.
  apply (getAllPlayers_single_page [alice10; bob20] [userKey "alice"; userKey "bob"]
           0 threeSubscribers).
  - intros n. reflexivity.
  - reflexivity.
  - reflexivity.
  - intros r [<-|[<-|[]]]; split; reflexivity.
Defined.

Example getAllPlayers_ranked :
  (getAllPlayers 1 threeSubscribers).1 = Returned ([bob20; alice10], None).
Proof. vm_compute. reflexivity. Qed.

(** C3 as stated fails: the two stores hold the same two records of equal
    score and SCAN lists every key once in one page; the results differ,
    following the order of the page.  No key of the records decides ties. *)
Lemma getAllPlayers_ties_follow_scan_order :
  keyspace (client (tiedPlayers [userKey "alice"; userKey "bob"]))
    = keyspace (client (tiedPlayers [userKey "bob"; userKey "alice"])) /\
  (getAllPlayers 1 (tiedPlayers [userKey "alice"; userKey "bob"])).1
    = Returned ([alice7; bob7], None) /\
  (getAllPlayers 1 (tiedPlayers [userKey "bob"; userKey "alice"])).1
    = Returned ([bob7; alice7], None) /\
  (getAllPlayers 1 (tiedPlayers [userKey "alice"; userKey "bob"])).1
    <> (getAllPlayers 1 (tiedPlayers [userKey "bob"; userKey "alice"])).1.
Proof.
  split; [reflexivity|]. split; [vm_compute; reflexivity|].
  split; [vm_compute; reflexivity|].
  vm_compute. discriminate.
Qed.

Lemma getAllPlayers_fail_fast_witness :
  (getAllPlayers 5 twoPagesThenDown).1 = Returned ([], Some (StoreError "i/o timeout")) /\
  (getAllPlayers 5 corruptBob).1 = Returned ([], Some (UnmarshalTypeError "GameState")).
Proof.
  split.
  - apply (proj1 (getAllPlayers_fail_fast 5 twoPagesThenDown)
             (trace (getAllPlayers 5 twoPagesThenDown).2)
             (RedisScan 0 100 (inl (StoreError "i/o timeout")))).
    + reflexivity.
    + vm_compute. right. right. left. reflexivity.
    + reflexivity.
  - apply (proj1 (getAllPlayers_fail_fast 5 corruptBob)
             (trace (getAllPlayers 5 corruptBob).2)
             (RedisGet (userKey "bob") (inr (JSONText (JString "bob"))))).
    + reflexivity.
    + vm_compute. right. right. left. reflexivity.
    + reflexivity.
Defined.

(** ** C4 and C8: the message loop of [handleWebSocket] *)

Lemma ReadMessage_frame ws w s frame rest :
  sockets w !! ws = Some s -> closed s = false -> incoming s = frame :: rest ->
  ReadMessage ws w =
    (ReadReturns (inr frame),
     mkWorld (client w) (leaderboardSubscribers w)
             (<[ws := mkSocket rest (hangup s) (writeErr s) false]> (sockets w))
             (trace w ++ [WsRead ws (inr frame)])).
Proof.
  intros Hs Hopen Hin. unfold ReadMessage, bind, socket_of. rewrite Hs. simpl.
  by rewrite Hopen, Hin.
Qed.

Lemma ReadMessage_hangup ws w s e :
  sockets w !! ws = Some s -> closed s = false -> incoming s = [] -> hangup s = Some e ->
  (failed_read_count (trace w) ws < 999)%nat ->
  ReadMessage ws w =
    (ReadReturns (inl e),
     mkWorld (client w) (leaderboardSubscribers w) (sockets w)
             (trace w ++ [WsRead ws (inl e)])).
Proof.
  intros Hs Hopen Hin Hup Hcount. unfold ReadMessage, bind, socket_of. rewrite Hs. simpl.
  rewrite Hopen, Hin, Hup. unfold read_fails, bind.
  destruct (Nat.leb_spec 1000 (S (failed_read_count (trace w) ws))); [lia|done].
Qed.

Lemma ReadMessage_panics ws w s e :
  sockets w !! ws = Some s -> closed s = false -> incoming s = [] -> hangup s = Some e ->
  (999 <= failed_read_count (trace w) ws)%nat ->
  ReadMessage ws w = (ReadPanics repeatedRead, w).
Proof.
  intros Hs Hopen Hin Hup Hcount. unfold ReadMessage, bind, socket_of. rewrite Hs. simpl.
  rewrite Hopen, Hin, Hup. unfold read_fails, bind.
  destruct (Nat.leb_spec 1000 (S (failed_read_count (trace w) ws))); [done|lia].
Qed.

Lemma failed_read_count_app t1 t2 c :
  failed_read_count (t1 ++ t2) c = (failed_read_count t1 c + failed_read_count t2 c)%nat.
Proof.
  induction t1 as [|ev t1 IH]; [done|].
  cbn [app failed_read_count]. destruct ev as [| | |c' [e|f]| | |]; rewrite IH; lia.
Qed.

Lemma failed_read_count_retry t c e :
  failed_read_count ((t ++ [WsRead c (inl e)]) ++ [Println (error_text e)]) c
    = S (failed_read_count t c).
Proof.
  rewrite !failed_read_count_app. cbn. rewrite bool_decide_eq_true_2 by done. lia.
Qed.

Section MessageLoop.
Context {rt : GoRuntime}.

Lemma handleMessage_unrecognized ws messageType message w :
  type_of message <> Some "subscribe" ->
  type_of message <> Some "update" ->
  handleMessage ws messageType message w = (false, w).
Proof.
  unfold type_of, handleMessage. intros Hsub Hupd.
  destruct (messageType =? TextMessage)%Z; [|done].
  destruct (json_Unmarshal_map message) as [err|data]; [done|].
  unfold iface_eq_string.
  destruct (map_index data "type") as [[| | |s| |]|]; try done.
  destruct (String.eqb_spec s "subscribe") as [->|_]; [done|].
  destruct (String.eqb_spec s "update") as [->|_]; [done|].
  done.
Qed.

(** C8. A frame that is not JSON, or whose JSON carries neither the type
    [subscribe] nor the type [update], is read and dropped: the loop goes
    on to the next read in a world that differs only by the frame having
    been read, so nothing was written to any connection or to the store and
    the connection was not closed. *)
Theorem handleWebSocket_drops_unrecognized (fuel : nat) (ws : Conn) (w : World)
    (s : Socket) (messageType : Z) (message : payload) (rest : list (Z * payload)) :
  sockets w !! ws = Some s ->
  closed s = false ->
  incoming s = (messageType, message) :: rest ->
  type_of message <> Some "subscribe" ->
  type_of message <> Some "update" ->
  handleWebSocket_loop (S fuel) ws w =
    handleWebSocket_loop fuel ws
      (mkWorld (client w) (leaderboardSubscribers w)
               (<[ws := mkSocket rest (hangup s) (writeErr s) false]> (sockets w))
               (trace w ++ [WsRead ws (inr (messageType, message))])).
Proof.
  intros Hs Hopen Hin Hsub Hupd.
  cbn [handleWebSocket_loop]. unfold bind.
  rewrite (ReadMessage_frame ws w s (messageType, message) rest) by done.
  by rewrite handleMessage_unrecognized.
Qed.

(** Reading a connection whose peer has gone away: as long as fewer than
    999 reads have failed, the read fails, the error is printed and the
    loop reads again; it neither returns nor touches the registry or the
    connection. *)
Lemma handleWebSocket_loop_spins (ws : Conn) (s : Socket) (e : error) (fuel : nat) :
  forall w,
    sockets w !! ws = Some s ->
    closed s = false -> incoming s = [] -> hangup s = Some e ->
    (failed_read_count (trace w) ws + fuel <= 999)%nat ->
    handleWebSocket_loop fuel ws w =
      (OutOfFuel,
       mkWorld (client w) (leaderboardSubscribers w) (sockets w)
               (trace w ++ failed_reads fuel ws e)).
Proof.
  induction fuel as [|fuel IH]; intros w Hs Hopen Hin Hup Hcount.
  - cbn. rewrite app_nil_r. by destruct w.
  - cbn [handleWebSocket_loop]. unfold bind.
    rewrite (ReadMessage_hangup ws w s e) by (done || lia).
    unfold fmt_Println, emit. rewrite IH; try done.
    + cbn. by rewrite <- !app_assoc.
    + cbn [trace]. rewrite failed_read_count_retry. lia.
Qed.

(** The read after the 999th failed one panics: with [k] failed reads to
    go and fuel for more, the loop is left by the panic. *)
Lemma handleWebSocket_loop_panics (ws : Conn) (s : Socket) (e : error) (k : nat) :
  forall fuel w,
    sockets w !! ws = Some s ->
    closed s = false -> incoming s = [] -> hangup s = Some e ->
    (failed_read_count (trace w) ws + k = 999)%nat ->
    (k < fuel)%nat ->
    handleWebSocket_loop fuel ws w =
      (Panicked repeatedRead,
       mkWorld (client w) (leaderboardSubscribers w) (sockets w)
               (trace w ++ failed_reads k ws e)).
Proof.
  induction k as [|k IH]; intros fuel w Hs Hopen Hin Hup Hcount Hfuel;
    (destruct fuel as [|fuel]; [lia|]); cbn [handleWebSocket_loop]; unfold bind.
  - rewrite (ReadMessage_panics ws w s e) by (done || lia).
    cbn. rewrite app_nil_r. by destruct w.
  - rewrite (ReadMessage_hangup ws w s e) by (done || lia).
    unfold fmt_Println, emit. rewrite (IH fuel); try done.
    + cbn. by rewrite <- !app_assoc.
    + cbn [trace]. rewrite failed_read_count_retry. lia.
    + lia.
Qed.

Lemma handleWebSocket_spins (ws : Conn) (s : Socket) (e : error) (fuel : nat) (w : World) :
  sockets w !! ws = Some s ->
  closed s = false -> incoming s = [] -> hangup s = Some e ->
  (failed_read_count (trace w) ws + fuel <= 999)%nat ->
  handleWebSocket fuel (inr ws) w =
    (OutOfFuel,
     mkWorld (client w) ({[ws]} ∪ leaderboardSubscribers w) (sockets w)
             (trace w ++ failed_reads fuel ws e)).
Proof.
  intros Hs Hopen Hin Hup Hcount. unfold handleWebSocket, bind, subscribers_add.
  by rewrite (handleWebSocket_loop_spins ws s e fuel).
Qed.

Lemma handleWebSocket_panics (ws : Conn) (s : Socket) (e : error) (k fuel : nat) (w : World) :
  sockets w !! ws = Some s ->
  closed s = false -> incoming s = [] -> hangup s = Some e ->
  (failed_read_count (trace w) ws + k = 999)%nat ->
  (k < fuel)%nat ->
  handleWebSocket fuel (inr ws) w =
    (Panicked repeatedRead,
     mkWorld (client w) ({[ws]} ∪ leaderboardSubscribers w)
             (<[ws := mkSocket (incoming s) (hangup s) (writeErr s) true]> (sockets w))
             ((trace w ++ failed_reads k ws e) ++ [WsClose ws])).
Proof.
  intros Hs Hopen Hin Hup Hcount Hfuel. unfold handleWebSocket, bind, subscribers_add.
  rewrite (handleWebSocket_loop_panics ws s e k fuel) by done.
  unfold Close, bind, set_socket, emit, ret, socket_of. cbn. by rewrite Hs.
Qed.

End MessageLoop.

(** C4, at a registered connection whose peer has gone away.  The handler
    does not leave its loop on the read error: it reads again at once, 999
    times over, the handle staying in the registry and the connection
    open.  It is left only when the library panics on the 1000th failed
    read; the deferred close then runs, but the handle is still in the
    registry, and a later [updateScore] attempts a push to it before it is
    dropped. *)
Theorem handleWebSocket_read_error_retries :
  (forall fuel,
      let run := handleWebSocket (Nat.min fuel 999) (inr 1%positive) hungUp in
      run.1 = OutOfFuel /\
      leaderboardSubscribers run.2 = {[1%positive]} /\
      closed (socket_of run.2 1%positive) = false /\
      trace run.2 = failed_reads (Nat.min fuel 999) 1%positive unexpectedEOF) /\
  (forall more,
      let run := handleWebSocket (1000 + more) (inr 1%positive) hungUp in
      run.1 = Panicked repeatedRead /\
      leaderboardSubscribers run.2 = {[1%positive]} /\
      closed (socket_of run.2 1%positive) = true /\
      trace run.2 = failed_reads 999 1%positive unexpectedEOF ++ [WsClose 1%positive]) /\
  (let left := (handleWebSocket 1000 (inr 1%positive) hungUp).2 in
   trace (updateScore "alice" 30 left).2 =
     trace left
     ++ [RedisSet (userKey "alice") (json_Marshal_GameState (mkGameState "alice" 30)) None;
         WsWrite 1%positive TextMessage (dataUpdated (mkGameState "alice" 30))
                 (Some errClosed)] /\
   elements (leaderboardSubscribers (updateScore "alice" 30 left).2) = []).
Proof.
  split; [|split].
  - intros fuel run. subst run.
    rewrite (handleWebSocket_spins 1%positive
               (mkSocket [] (Some unexpectedEOF) (Some brokenPipe) false)
               unexpectedEOF (Nat.min fuel 999) hungUp) by (reflexivity || (cbn; lia)).
    cbn [fst snd leaderboardSubscribers sockets trace].
    split; [done|]. split; [apply (right_id_L ∅ (∪))|]. split; reflexivity.
  - intros more run. subst run.
    rewrite (handleWebSocket_panics 1%positive
               (mkSocket [] (Some unexpectedEOF) (Some brokenPipe) false)
               unexpectedEOF 999 (1000 + more) hungUp) by (reflexivity || lia).
    cbn [fst snd leaderboardSubscribers sockets trace].
    split; [done|]. split; [apply (right_id_L ∅ (∪))|]. split; [|reflexivity].
    unfold socket_of. cbn [sockets]. by rewrite lookup_insert_eq.
  - cbv zeta.
    rewrite (handleWebSocket_panics 1%positive
               (mkSocket [] (Some unexpectedEOF) (Some brokenPipe) false)
               unexpectedEOF 999 1000 hungUp) by (reflexivity || lia).
    cbn [snd]. split; vm_compute; reflexivity.
Qed.

Lemma handleWebSocket_drops_unrecognized_witness :
  handleWebSocket_loop 4 1%positive oddFrames =
    handleWebSocket_loop 3 1%positive
      (mkWorld (client oddFrames) (leaderboardSubscribers oddFrames)
               (<[1%positive :=
                    mkSocket [(TextMessage, JSONText (JObject [("channel", JString "leaderboard_updates")]));
                              (TextMessage, JSONText (JObject [("type", JString "ping")]))]
                             None None false]> (sockets oddFrames))
               (trace oddFrames ++ [WsRead 1%positive (inr (TextMessage, NotJSON "hello"))])).
Proof.
  apply (handleWebSocket_drops_unrecognized 3 1%positive oddFrames
           (mkSocket [(TextMessage, NotJSON "hello");
                      (TextMessage, JSONText (JObject [("channel", JString "leaderboard_updates")]));
                      (TextMessage, JSONText (JObject [("type", JString "ping")]))]
                     None None false)).
  - reflexivity.
  - reflexivity.
  - reflexivity.
  - discriminate.
  - discriminate.
Defined.

(** The three odd frames are read one after the other and the handler then
    waits for the next one: only reads are in the trace. *)
Example handleWebSocket_oddFrames :
  let run := handleWebSocket 10 (inr 1%positive) oddFrames in
  run.1 = Waiting /\
  trace run.2 =
    [WsRead 1%positive (inr (TextMessage, NotJSON "hello"));
     WsRead 1%positive (inr (TextMessage, JSONText (JObject [("channel", JString "leaderboard_updates")])));
     WsRead 1%positive (inr (TextMessage, JSONText (JObject [("type", JString "ping")])))] /\
  closed (socket_of run.2 1%positive) = false.
Proof. vm_compute. repeat split. Qed.

(** ** C5 and C10: [addUser] *)

Lemma client_Get_eq key w :
  client_Get key w =
    (get_reply w key,
     mkWorld (mkRedis (keyspace (client w)) (scanPage (client w)) (fault (client w))
                      (S (served (client w))))
             (leaderboardSubscribers w) (sockets w)
             (trace w ++ [RedisGet key (get_reply w key)])).
Proof. reflexivity. Qed.

Lemma client_Set_eq key value w :
  fault (client w) (served (client w)) = None ->
  client_Set key value w =
    (None,
     mkWorld (mkRedis (<[key := value]> (keyspace (client w))) (scanPage (client w))
                      (fault (client w)) (S (served (client w))))
             (leaderboardSubscribers w) (sockets w)
             (trace w ++ [RedisSet key value None])).
Proof. intros Hok. unfold client_Set, send_command, bind. simpl. by rewrite Hok. Qed.

Lemma LiteralServer_addUser_creates u s w e :
  get_reply w (userKey u) = inl e ->
  fault (client w) (S (served (client w))) = None ->
  creates LiteralServer.addUser (post u s) w e (userKey u) (mkGameState u 0) (newlyAdded u).
Proof.
  intros Hget Hset. unfold creates, LiteralServer.addUser, post.
  cbn [Method Body String.eqb Ascii.eqb Bool.eqb MethodOptions].
  rewrite json_roundtrip. cbn [Username]. unfold bind.
  change ("user:" ++ u)%string with (userKey u).
  rewrite client_Get_eq, Hget. cbn [json_Marshal].
  rewrite client_Set_eq by exact Hset.
  unfold ret. cbn [fst snd client keyspace fault trace Score].
  by rewrite <- app_assoc.
Qed.

Lemma EnvServer_addUser_creates u s w e :
  get_reply w (userKey u) = inl e ->
  fault (client w) (S (served (client w))) = None ->
  creates EnvServer.addUser (post u s) w e (userKey u) (mkGameState u s) (addedText u).
Proof.
  intros Hget Hset. unfold creates, EnvServer.addUser, post.
  cbn [Method Body String.eqb Ascii.eqb Bool.eqb MethodOptions].
  rewrite json_roundtrip. cbn [Username]. unfold bind.
  change ("user:" ++ u)%string with (userKey u).
  rewrite client_Get_eq, Hget. cbn [json_Marshal].
  rewrite client_Set_eq by exact Hset.
  unfold ret. cbn [fst snd client keyspace fault trace Score].
  by rewrite <- app_assoc.
Qed.

Lemma LiteralServer_addUser_reports u s z w :
  reachable w ->
  keyspace (client w) !! userKey u = Some (json_Marshal_GameState (mkGameState u z)) ->
  reports LiteralServer.addUser (post u s) w (alreadyExists u z).
Proof.
  intros Hre Hlook. unfold reports, LiteralServer.addUser, post.
  cbn [Method Body String.eqb Ascii.eqb Bool.eqb MethodOptions].
  rewrite json_roundtrip. cbn [Username]. unfold bind.
  change ("user:" ++ u)%string with (userKey u).
  rewrite client_Get_eq. unfold get_reply. rewrite Hre, Hlook, json_roundtrip. done.
Qed.

Lemma EnvServer_addUser_reports u s z w :
  reachable w ->
  keyspace (client w) !! userKey u = Some (json_Marshal_GameState (mkGameState u z)) ->
  reports EnvServer.addUser (post u s) w (existsText u z).
Proof.
  intros Hre Hlook. unfold reports, EnvServer.addUser, post.
  cbn [Method Body String.eqb Ascii.eqb Bool.eqb MethodOptions].
  rewrite json_roundtrip. cbn [Username]. unfold bind.
  change ("user:" ++ u)%string with (userKey u).
  rewrite client_Get_eq. unfold get_reply. rewrite Hre, Hlook, json_roundtrip. done.
Qed.

Lemma serve_cons handler r rest w :
  serve handler (r :: rest) w =
    ((handler r w).1 :: (serve handler rest (handler r w).2).1,
     (serve handler rest (handler r w).2).2).
Proof.
  cbn [serve]. unfold bind. destruct (handler r w) as [resp w1]. cbn [fst snd].
  by destruct (serve handler rest w1).
Qed.

(** Later posts for a user whose record is stored are all answered alike
    and leave the store as it is. *)
Lemma serve_reports handler u z answer (later : list Z) :
  (forall s w, reachable w ->
     keyspace (client w) !! userKey u = Some (json_Marshal_GameState (mkGameState u z)) ->
     reports handler (post u s) w answer) ->
  forall w, reachable w ->
    keyspace (client w) !! userKey u = Some (json_Marshal_GameState (mkGameState u z)) ->
    (serve handler (map (post u) later) w).1 = map (fun _ => answer) later /\
    keyspace (client (serve handler (map (post u) later) w).2) = keyspace (client w).
Proof.
  intros Hh. induction later as [|s later IH]; intros w Hre Hlook; [done|].
  cbn [map]. rewrite serve_cons. cbn [fst snd].
  destruct (Hh s w Hre Hlook) as (Hans & Hk & Hf).
  destruct (IH (handler (post u s) w).2) as [Hresp Hk'].
  { intros n. rewrite Hf. apply Hre. }
  { by rewrite Hk. }
  rewrite Hans, Hresp, Hk', Hk. done.
Qed.

(** C5, as the code has it.  For a user with no record in a store that
    answers every command, the first post creates the record and every
    later post, whatever score it carries, reports the stored score and
    leaves the store as it is.  The variant with literal credentials stores
    score 0 and answers with the JSON objects [{Username, Score, State}],
    State being "newly added", then "already exists"; the variant
    configured from the environment stores the posted score and answers in
    plain text. *)
Theorem addUser_first_then_exists (u : string) (s : Z) (later : list Z) (w : World) :
  reachable w ->
  keyspace (client w) !! userKey u = None ->
  let requests := post u s :: map (post u) later in
  ((serve LiteralServer.addUser requests w).1
     = newlyAdded u :: map (fun _ => alreadyExists u 0) later /\
   keyspace (client (serve LiteralServer.addUser requests w).2)
     = <[userKey u := json_Marshal_GameState (mkGameState u 0)]> (keyspace (client w))) /\
  ((serve EnvServer.addUser requests w).1
     = addedText u :: map (fun _ => existsText u s) later /\
   keyspace (client (serve EnvServer.addUser requests w).2)
     = <[userKey u := json_Marshal_GameState (mkGameState u s)]> (keyspace (client w))).
Proof.
  intros Hre Habsent requests. subst requests.
  assert (get_reply w (userKey u) = inl redis_Nil) as Hget
    by (unfold get_reply; by rewrite Hre, Habsent).
  rewrite !serve_cons. cbn [fst snd]. split.
  - destruct (LiteralServer_addUser_creates u s w redis_Nil Hget (Hre _))
      as (Hans & Hk & Hf & _).
    destruct (serve_reports LiteralServer.addUser u 0 (alreadyExists u 0) later
                (fun s' w' => LiteralServer_addUser_reports u s' 0 w')
                (LiteralServer.addUser (post u s) w).2) as [Hresp Hk'].
    { intros n. rewrite Hf. apply Hre. }
    { rewrite Hk. apply lookup_insert_eq. }
    by rewrite Hans, Hresp, Hk', Hk.
  - destruct (EnvServer_addUser_creates u s w redis_Nil Hget (Hre _))
      as (Hans & Hk & Hf & _).
    destruct (serve_reports EnvServer.addUser u s (existsText u s) later
                (fun s' w' => EnvServer_addUser_reports u s' s w')
                (EnvServer.addUser (post u s) w).2) as [Hresp Hk'].
    { intros n. rewrite Hf. apply Hre. }
    { rewrite Hk. apply lookup_insert_eq. }
    by rewrite Hans, Hresp, Hk', Hk.
Qed.

(** C10, as the code has it.  Whatever error the read of the user's key
    returns, the absent-key signal or a failure of the command, [addUser]
    goes on as for a new user: if the write gets through, the key then
    holds a fresh record, whatever it held before, and the answer is that
    of a creation.  The fresh record has score 0 in the variant with
    literal credentials and the posted score in the variant configured
    from the environment. *)
Theorem addUser_read_error_creates (u : string) (s : Z) (w : World) (e : error) :
  get_reply w (userKey u) = inl e ->
  fault (client w) (S (served (client w))) = None ->
  creates LiteralServer.addUser (post u s) w e (userKey u) (mkGameState u 0) (newlyAdded u) /\
  creates EnvServer.addUser (post u s) w e (userKey u) (mkGameState u s) (addedText u).
Proof.
  intros Hget Hset. split.
  - by apply LiteralServer_addUser_creates.
  - by apply EnvServer_addUser_creates.
Qed.

Lemma addUser_first_then_exists_witness :
  ((serve LiteralServer.addUser (post "carol" 5 :: map (post "carol") [9; 0]%Z) threeSubscribers).1
     = newlyAdded "carol" :: map (fun _ => alreadyExists "carol" 0) [9; 0]%Z /\
   keyspace (client (serve LiteralServer.addUser
                       (post "carol" 5 :: map (post "carol") [9; 0]%Z) threeSubscribers).2)
     = <[userKey "carol" := json_Marshal_GameState (mkGameState "carol" 0)]>
         (keyspace (client threeSubscribers))) /\
  ((serve EnvServer.addUser (post "carol" 5 :: map (post "carol") [9; 0]%Z) threeSubscribers).1
     = addedText "carol" :: map (fun _ => existsText "carol" 5) [9; 0]%Z /\
   keyspace (client (serve EnvServer.addUser
                       (post "carol" 5 :: map (post "carol") [9; 0]%Z) threeSubscribers).2)
     = <[userKey "carol" := json_Marshal_GameState (mkGameState "carol" 5)]>
         (keyspace (client threeSubscribers))).
Proof.
  apply (addUser_first_then_exists "carol" 5 [9; 0]%Z threeSubscribers).
  - intros n. reflexivity.
  - reflexivity.
Defined.

Lemma addUser_read_error_creates_witness :
  creates LiteralServer.addUser (post "alice" 7) flakyStore (StoreError "i/o timeout")
          (userKey "alice") (mkGameState "alice" 0) (newlyAdded "alice") /\
  creates EnvServer.addUser (post "alice" 7) flakyStore (StoreError "i/o timeout")
          (userKey "alice") (mkGameState "alice" 7) (addedText "alice").
Proof.
  apply (addUser_read_error_creates "alice" 7 flakyStore (StoreError "i/o timeout")).
  - reflexivity.
  - reflexivity.
Defined.

(** C5 as stated fails in the variant configured from the environment: the
    first post for a new user stores the posted score and is answered in
    plain text. *)
Lemma EnvServer_addUser_first_post :
  keyspace (client emptyWorld) !! userKey "alice" = None /\
  (EnvServer.addUser (post "alice" 5) emptyWorld).1
    = mkResponse corsOrigin StatusOK (Text "User alice added successfully!") /\
  (EnvServer.addUser (post "alice" 5) emptyWorld).1 <> newlyAdded "alice" /\
  keyspace (client (EnvServer.addUser (post "alice" 5) emptyWorld).2) !! userKey "alice"
    = Some (json_Marshal_GameState (mkGameState "alice" 5)) /\
  json_Marshal_GameState (mkGameState "alice" 5) <> json_Marshal_GameState (mkGameState "alice" 0).
Proof.
  split; [reflexivity|]. split; [reflexivity|]. split; [discriminate|].
  split; [vm_compute; reflexivity|discriminate].
Qed.

(** C10 as stated fails in the variant configured from the environment:
    after a failed read the record of alice, stored with score 10, is
    overwritten with the posted score 7, not with score 0. *)
Lemma EnvServer_addUser_overwrites_with_posted_score :
  keyspace (client flakyStore) !! userKey "alice" = Some (json_Marshal_GameState alice10) /\
  get_reply flakyStore (userKey "alice") = inl (StoreError "i/o timeout") /\
  keyspace (client (EnvServer.addUser (post "alice" 7) flakyStore).2) !! userKey "alice"
    = Some (json_Marshal_GameState (mkGameState "alice" 7)) /\
  json_Marshal_GameState (mkGameState "alice" 7) <> json_Marshal_GameState (mkGameState "alice" 0).
Proof.
  split; [vm_compute; reflexivity|]. split; [reflexivity|].
  split; [vm_compute; reflexivity|discriminate].
Qed.

(** * Further properties of the code *)

(** ** Keys and records *)

Lemma strings_Split_length (s : string) (sep : ascii) :
  length (strings_Split s sep) = S (count_char sep s).
Proof.
  induction s as [|c s IH]; [done|].
  cbn [strings_Split count_char]. destruct (Ascii.eqb c sep).
  - cbn [length]. by rewrite IH.
  - destruct (strings_Split s sep) as [|hd tl]; [done|]. cbn [length] in *. lia.
Qed.

(** X1. The key derived from a username passes the two tests of
    [getAllPlayers] exactly when the username holds no colon: a player
    whose name holds one is stored by [updateScore] and [addUser] under a
    key the leaderboard skips. *)
Theorem wellFormedKey_userKey (u : string) :
  wellFormedKey (userKey u) = true <-> count_char ":" u = O.
Proof.
  unfold wellFormedKey.
  assert (strings_HasPrefix (userKey u) "user:" = true) as -> by (by destruct u).
  rewrite strings_Split_length. cbn [andb].
  change (count_char ":" (userKey u)) with (S (count_char ":" u)).
  rewrite Nat.eqb_eq. lia.
Qed.

(** ** [getAllPlayers] reads and never writes *)

Lemma untouched_refl w : untouched w w.
Proof. by repeat split. Qed.

Lemma untouched_trans w1 w2 w3 : untouched w1 w2 -> untouched w2 w3 -> untouched w1 w3.
Proof.
  intros (?&?&?&?&?&?) (?&?&?&?&?&?). repeat split; try congruence. lia.
Qed.

Lemma client_Get_untouched key w : untouched w (client_Get key w).2.
Proof. repeat split. simpl. lia. Qed.

Lemma client_Scan_untouched cursor count w : untouched w (client_Scan cursor count w).2.
Proof. repeat split. simpl. lia. Qed.

Lemma fmt_Println_untouched text w : untouched w (fmt_Println text w).2.
Proof. by repeat split. Qed.

Section GetAllPlayersMore.
Context {rt : GoRuntime} {laws : GoRuntimeLaws rt}.

Lemma getAllPlayers_keys_untouched keys : forall players w,
  untouched w (getAllPlayers_keys keys players w).2.
Proof.
  induction keys as [|key rest IH]; intros players w; [apply untouched_refl|].
  rewrite getAllPlayers_keys_cons. destruct (wellFormedKey key).
  - destruct (json_Unmarshal_GameState (Val (client_Get key w).1)).
    + apply client_Get_untouched.
    + eapply untouched_trans; [apply client_Get_untouched|apply IH].
  - destruct (strings_HasPrefix key "user:"); [|apply IH].
    eapply untouched_trans; [apply fmt_Println_untouched|apply IH].
Qed.

Lemma getAllPlayers_loop_untouched fuel : forall cursor players w,
  untouched w (getAllPlayers_loop fuel cursor players w).2.
Proof.
  induction fuel as [|fuel IH]; intros cursor players w; [apply untouched_refl|].
  rewrite getAllPlayers_loop_step. cbv zeta.
  pose proof (client_Scan_untouched cursor 100 w) as Hscan.
  destruct (client_Scan cursor 100 w).1 as [err|[keys cursor']]; [done|].
  pose proof (getAllPlayers_keys_untouched keys players (client_Scan cursor 100 w).2) as Hkeys.
  destruct (getAllPlayers_keys keys players (client_Scan cursor 100 w).2).1 as [err|players'].
  - by eapply untouched_trans.
  - destruct (cursor' =? 0)%N; [by eapply untouched_trans|].
    eapply untouched_trans; [|apply IH]. by eapply untouched_trans.
Qed.

(** X3. However long it runs and however it ends, [getAllPlayers] leaves
    the stored records, the registry and the connections as they were. *)
Theorem getAllPlayers_read_only (fuel : nat) (w : World) :
  untouched w (getAllPlayers fuel w).2.
Proof. apply getAllPlayers_loop_untouched. Qed.

Lemma getAllPlayers_keys_filter keys : forall recs players w,
  reachable w -> stored w recs ->
  List.filter wellFormedKey keys = map key_of recs ->
  (getAllPlayers_keys keys players w).1 = inr (players ++ recs) /\
  same_store w (getAllPlayers_keys keys players w).2.
Proof.
  induction keys as [|key rest IH]; intros recs players w Hre Hst Hf.
  - symmetry in Hf. apply map_eq_nil in Hf as ->. cbn. rewrite app_nil_r.
    split; [done|apply same_store_refl].
  - rewrite getAllPlayers_keys_cons. cbn [List.filter] in Hf.
    destruct (wellFormedKey key) eqn:Hwf.
    + destruct recs as [|r recs]; [done|]. cbn [map] in Hf.
      injection Hf as -> Hf.
      destruct (Hst r (or_introl eq_refl)) as [_ Hlook].
      destruct (client_Get_spec (key_of r) w) as (Hr & _ & Hsame & _).
      rewrite Hr. unfold get_reply. rewrite Hre. unfold key_of in *. rewrite Hlook.
      cbn [Val]. rewrite json_roundtrip.
      destruct (IH recs (players ++ [r]) (client_Get (userKey (Username r)) w).2)
        as [Hres Hsame'].
      { by eapply reachable_same_store. }
      { eapply stored_same_store; [done|]. intros r' Hr'. apply Hst. by right. }
      { done. }
      rewrite Hres, <- app_assoc. split; [done|]. by eapply same_store_trans.
    + destruct (strings_HasPrefix key "user:"); [|by apply IH].
      destruct (IH recs players (fmt_Println ("Invalid key format: " ++ key) w).2)
        as [Hres Hsame']; try done.
Qed.

Lemma sort_Slice_ranked (l : list GameState) :
  sort_Slice (fun pi pj => (Score pj <? Score pi)%Z) l ≡ₚ l /\
  descending (sort_Slice (fun pi pj => (Score pj <? Score pi)%Z) l).
Proof.
  set (less := fun pi pj : GameState => (Score pj <? Score pi)%Z).
  split; [apply sort_Slice_perm|].
  apply (StronglySorted_weaken (fun a b => less b a = false)).
  { intros a b Hab. unfold less in Hab. lia. }
  apply Sorted_StronglySorted.
  { intros a b c. unfold less. lia. }
  apply sort_Slice_sorted. intros a b. unfold less. lia.
Qed.

Lemma getAllPlayers_page_filter recs keys fuel w :
  reachable w -> stored w recs ->
  scanPage (client w) 0%N = (keys, 0%N) ->
  List.filter wellFormedKey keys = map key_of recs ->
  (getAllPlayers (S fuel) w).1
    = Returned (sort_Slice (fun pi pj => (Score pj <? Score pi)%Z) recs, None).
Proof.
  intros Hre Hst Hpage Hf.
  destruct (client_Scan_spec 0%N 100 w) as (Hr & _ & Hsame & _).
  destruct (getAllPlayers_keys_filter keys recs [] (client_Scan 0 100 w).2) as [Hres _].
  { by eapply reachable_same_store. }
  { by eapply stored_same_store. }
  { done. }
  unfold getAllPlayers. rewrite getAllPlayers_loop_step. cbv zeta.
  rewrite Hr. unfold scan_reply. by rewrite Hre, Hpage, Hres.
Qed.

(** X4. Keys that do not start with "user:" or hold a second colon do not
    count: when the first SCAN reply carries the zero cursor and its
    well-formed keys are those of the stored records, [getAllPlayers]
    returns these records in descending order of score, whatever other
    keys the page lists.  A key listed twice yields its record twice. *)
Theorem getAllPlayers_other_keys_ignored (recs : list GameState) (keys : list string)
    (fuel : nat) (w : World) :
  reachable w ->
  scanPage (client w) 0%N = (keys, 0%N) ->
  List.filter wellFormedKey keys ≡ₚ map key_of recs ->
  stored w recs ->
  exists players,
    (getAllPlayers (S fuel) w).1 = Returned (players, None) /\
    players ≡ₚ recs /\ descending players.
Proof.
  intros Hre Hpage Hperm Hst.
  apply Permutation_map_inv in Hperm as (recs' & Hf & Hperm').
  assert (stored w recs') as Hst' by (intros r Hr; apply Hst; by rewrite Hperm').
  rewrite (getAllPlayers_page_filter recs' keys fuel w Hre Hst' Hpage Hf).
  destruct (sort_Slice_ranked recs') as [Hsp Hdesc].
  eexists. split; [done|]. split; [by rewrite Hsp, Hperm'|done].
Qed.

Lemma getAllPlayers_keys_vanished recs key rest :
  wellFormedKey key = true ->
  forall players w,
    reachable w -> stored w recs -> keyspace (client w) !! key = None ->
    (getAllPlayers_keys (map key_of recs ++ key :: rest) players w).1 = inl SyntaxError.
Proof.
  intros Hwf. induction recs as [|r recs IH]; intros players w Hre Hst Habs.
  - cbn [map app]. rewrite getAllPlayers_keys_cons, Hwf.
    destruct (client_Get_spec key w) as (Hr & _).
    rewrite Hr. unfold get_reply. by rewrite Hre, Habs.
  - cbn [map app]. rewrite getAllPlayers_keys_cons.
    destruct (Hst r (or_introl eq_refl)) as [Hwfr Hlook].
    change (key_of r) with (userKey (Username r)). rewrite Hwfr.
    destruct (client_Get_spec (userKey (Username r)) w) as (Hr & _ & Hsame & _).
    rewrite Hr. unfold get_reply. rewrite Hre, Hlook. cbn [Val].
    rewrite json_roundtrip. apply IH.
    + by eapply reachable_same_store.
    + eapply stored_same_store; [done|]. intros r' Hr'. apply Hst. by right.
    + destruct Hsame as (Hk & _). by rewrite Hk.
Qed.

(** X5. A key that SCAN lists but that is gone when its value is read
    aborts the whole call: the read yields the empty string, which does
    not decode, and the records read before it are dropped. *)
Theorem getAllPlayers_vanished_key (recs : list GameState) (key : string)
    (rest : list string) (cursor' : N) (fuel : nat) (w : World) :
  reachable w ->
  scanPage (client w) 0%N = (map key_of recs ++ key :: rest, cursor') ->
  stored w recs ->
  wellFormedKey key = true ->
  keyspace (client w) !! key = None ->
  (getAllPlayers (S fuel) w).1 = Returned ([], Some SyntaxError).
Proof.
  intros Hre Hpage Hst Hwf Habsent.
  destruct (client_Scan_spec 0%N 100 w) as (Hr & _ & Hsame & _).
  pose proof (getAllPlayers_keys_vanished recs key rest Hwf) as Hkeys.
  unfold getAllPlayers. rewrite getAllPlayers_loop_step. cbv zeta.
  rewrite Hr. unfold scan_reply. rewrite Hre, Hpage.
  rewrite Hkeys; [done|by eapply reachable_same_store|by eapply stored_same_store|].
  destruct Hsame as (Hk & _). by rewrite Hk.
Qed.

End GetAllPlayersMore.

Lemma wellFormedKey_userKey_witness :
  wellFormedKey (userKey "alice") = true /\ wellFormedKey (userKey "a:b") = false.
Proof.
  split.
  - apply (proj2 (wellFormedKey_userKey "alice")). reflexivity.
  - destruct (wellFormedKey (userKey "a:b")) eqn:Hwf; [|reflexivity].
    apply (proj1 (wellFormedKey_userKey "a:b")) in Hwf. discriminate Hwf.
Defined.

Lemma getAllPlayers_other_keys_ignored_witness :
  exists players,
    (getAllPlayers 1 mixedKeys).1 = Returned (players, None) /\
    players ≡ₚ [alice10; bob20] /\ descending players.
Proof.
  apply (getAllPlayers_other_keys_ignored [alice10; bob20]
           ["session:1"; userKey "alice"; userKey "a:b"; userKey "bob"] 0 mixedKeys).
  - intros n. reflexivity.
  - reflexivity.
  - reflexivity.
  - intros r [<-|[<-|[]]]; split; reflexivity.
Defined.

Lemma getAllPlayers_vanished_key_witness :
  (getAllPlayers 1 staleScan).1 = Returned ([], Some SyntaxError).
Proof.
  apply (getAllPlayers_vanished_key [alice10] (userKey "carol") [userKey "bob"] 0%N 0 staleScan).
  - intros n. reflexivity.
  - reflexivity.
  - intros r [<-|[]]; split; reflexivity.
  - reflexivity.
  - reflexivity.
Defined.

(** ** [getuserdetails] *)

Section GetUserDetails.
Context {rt : GoRuntime} {laws : GoRuntimeLaws rt}.

Lemma getuserdetails_GET fuel w :
  getuserdetails fuel listRequest w =
    (match (getAllPlayers fuel w).1 with
     | Returned (players, Some _) => Returned (Wrote internalServerError)
     | Returned (players, None) =>
         Returned (Fprintf jsonHeader
                     (JSONText match players with
                               | [] => JNull
                               | _ :: _ => JArray (map json_of_GameState players)
                               end))
     | Waiting => Waiting
     | OutOfFuel => OutOfFuel
     | Panicked msg => Panicked msg
     end,
     (getAllPlayers fuel w).2).
Proof.
  unfold getuserdetails, listRequest. cbn [Method String.eqb Ascii.eqb Bool.eqb
    MethodOptions MethodGet]. unfold bind.
  destruct (getAllPlayers fuel w) as [[[players [err|]]| | |msg] w1]; reflexivity.
Qed.

(** X6. Whatever fails while the leaderboard is collected, a page fetch or
    the decoding of a value, the client of /get-user-details gets status
    500 with the text "Internal server error" and no record. *)
Theorem getuserdetails_failure_500 (fuel : nat) (w : World) (new : list Event)
    (ev : Event) (e : error) :
  trace (getuserdetails fuel listRequest w).2 = trace w ++ new ->
  In ev new -> failure_of ev = Some e ->
  (getuserdetails fuel listRequest w).1 = Returned (Wrote internalServerError).
Proof.
  rewrite getuserdetails_GET. cbn [fst snd]. intros Hnew Hin Hfail.
  destruct (getAllPlayers_loop_trace fuel 0%N [] w) as (new' & Ht & _ & Hf & _).
  unfold getAllPlayers in *. rewrite Ht in Hnew. apply app_inv_head in Hnew as <-.
  by rewrite (Hf ev e Hin Hfail).
Qed.

(** X7. When the first SCAN reply carries the zero cursor and its
    well-formed keys are those of the stored records, /get-user-details
    answers with the JSON array of these records in descending order of
    score; with no such key the body is [null], not an empty array. *)
Theorem getuserdetails_ranked (recs : list GameState) (keys : list string)
    (fuel : nat) (w : World) :
  reachable w ->
  scanPage (client w) 0%N = (keys, 0%N) ->
  List.filter wellFormedKey keys ≡ₚ map key_of recs ->
  stored w recs ->
  exists players,
    players ≡ₚ recs /\ descending players /\
    (getuserdetails (S fuel) listRequest w).1 =
      Returned (Fprintf jsonHeader
                  (JSONText match recs with
                            | [] => JNull
                            | _ :: _ => JArray (map json_of_GameState players)
                            end)).
Proof.
  intros Hre Hpage Hperm Hst.
  apply Permutation_map_inv in Hperm as (recs' & Hf & Hperm').
  assert (stored w recs') as Hst' by (intros r Hr; apply Hst; by rewrite Hperm').
  destruct (sort_Slice_ranked recs') as [Hsp Hdesc].
  rewrite getuserdetails_GET,
    (getAllPlayers_page_filter recs' keys fuel w Hre Hst' Hpage Hf).
  exists (sort_Slice (fun pi pj => (Score pj <? Score pi)%Z) recs').
  split; [by rewrite Hsp, Hperm'|]. split; [done|]. cbn [fst].
  assert (sort_Slice (fun pi pj => (Score pj <? Score pi)%Z) recs' ≡ₚ recs) as Hpl
    by (by rewrite Hsp, Hperm').
  destruct (sort_Slice _ recs') as [|p players], recs as [|r recs]; try done.
  - by apply Permutation_nil_cons in Hpl.
  - symmetry in Hpl. by apply Permutation_nil_cons in Hpl.
Qed.

End GetUserDetails.

Lemma getuserdetails_failure_500_witness :
  (getuserdetails 5 listRequest corruptBob).1 = Returned (Wrote internalServerError).
Proof.
  apply (getuserdetails_failure_500 5 corruptBob
           (trace (getuserdetails 5 listRequest corruptBob).2)
           (RedisGet (userKey "bob") (inr (JSONText (JString "bob"))))
           (UnmarshalTypeError "GameState")).
  - reflexivity.
  - vm_compute. right. right. left. reflexivity.
  - reflexivity.
Defined.

Lemma getuserdetails_ranked_witness :
  exists players,
    players ≡ₚ [alice10; bob20] /\ descending players /\
    (getuserdetails 1 listRequest mixedKeys).1 =
      Returned (Fprintf jsonHeader (JSONText (JArray (map json_of_GameState players)))).
Proof.
  apply (getuserdetails_ranked [alice10; bob20]
           ["session:1"; userKey "alice"; userKey "a:b"; userKey "bob"] 0 mixedKeys).
  - intros n. reflexivity.
  - reflexivity.
  - reflexivity.
  - intros r [<-|[<-|[]]]; split; reflexivity.
Defined.

(** ** [updateScore] and the store *)

Section UpdateScoreMore.
Context {rt : GoRuntime}.

(** The [range] loop touches neither the store nor the connections and
    adds no handle, in whatever order and over whatever handles it runs. *)
Lemma range_subscribers_frame data (order : list Conn) : forall w,
  client (range_subscribers order (push_or_drop data) w).2 = client w /\
  sockets (range_subscribers order (push_or_drop data) w).2 = sockets w /\
  leaderboardSubscribers (range_subscribers order (push_or_drop data) w).2
    ⊆ leaderboardSubscribers w.
Proof.
  induction order as [|c rest IH]; intros w; [done|].
  cbn [range_subscribers]. unfold bind, subscribers_has.
  destruct (bool_decide (c ∈ leaderboardSubscribers w)).
  - destruct (push_or_drop_spec data c w) as (Hc & Hs & _ & Hl).
    destruct (push_or_drop data c w) as [[] w1]. cbn [snd] in *.
    destruct (IH w1) as (Hc' & Hs' & Hl').
    split; [congruence|]. split; [congruence|].
    etrans; [exact Hl'|]. rewrite Hl. destruct (write_reply w c); set_solver.
  - apply IH.
Qed.

(** The Redis side of [updateScore] is that of its SET. *)
Lemma updateScore_client username newScore w :
  client (updateScore username newScore w).2
    = client (client_Set (userKey username)
                (json_Marshal_GameState (mkGameState username newScore)) w).2 /\
  sockets (updateScore username newScore w).2 = sockets w /\
  leaderboardSubscribers (updateScore username newScore w).2 ⊆ leaderboardSubscribers w.
Proof.
  destruct (fault (client w) (served (client w))) as [e|] eqn:Hfault.
  - unfold updateScore, client_Set, send_command, bind, emit, ret. simpl.
    by rewrite Hfault.
  - destruct (updateScore_stored username newScore w Hfault) as (-> & Hl & Hs & _).
    cbn [snd].
    destruct (range_subscribers_frame
                (dataUpdated (mkGameState username newScore))
                (range_order (leaderboardSubscribers w))
                (client_Set (userKey username)
                   (json_Marshal_GameState (mkGameState username newScore)) w).2)
      as (Hc & Hs' & Hl').
    split; [done|]. split; [congruence|]. by rewrite Hl in Hl'.
Qed.

(** X8. Whether it succeeds or not, and whatever the registry holds,
    [updateScore] sends exactly one command to the store, leaves every
    other key as it was, adds no handle to the registry and leaves the
    connections as they were. *)
Theorem updateScore_frame (username : string) (newScore : Z) (w : World) :
  let w' := (updateScore username newScore w).2 in
  served (client w') = S (served (client w)) /\
  (forall key, key <> userKey username ->
     keyspace (client w') !! key = keyspace (client w) !! key) /\
  leaderboardSubscribers w' ⊆ leaderboardSubscribers w /\
  sockets w' = sockets w.
Proof.
  intros w'. subst w'.
  destruct (updateScore_client username newScore w) as (-> & Hs & Hl).
  split; [|split; [|done]].
  - unfold client_Set, send_command, bind. simpl.
    by destruct (fault (client w) (served (client w))).
  - intros key Hne. unfold client_Set, send_command, bind. simpl.
    destruct (fault (client w) (served (client w))); [done|]. simpl.
    by rewrite lookup_insert_ne.
Qed.

Lemma updateScore_keyspace username newScore w :
  fault (client w) (served (client w)) = None ->
  keyspace (client (updateScore username newScore w).2)
    = <[userKey username := json_Marshal_GameState (mkGameState username newScore)]>
        (keyspace (client w)) /\
  fault (client (updateScore username newScore w).2) = fault (client w) /\
  served (client (updateScore username newScore w).2) = S (served (client w)).
Proof.
  intros Hok. destruct (updateScore_client username newScore w) as (-> & _).
  by rewrite client_Set_eq.
Qed.

Lemma userKey_inj u1 u2 : userKey u1 = userKey u2 -> u1 = u2.
Proof. unfold userKey. intros Heq. cbv [String.append] in Heq. by injection Heq. Qed.

(** X9. Scores are overwritten in place and one player's update does not
    disturb another's: of two updates of one player the later is the one
    stored, and two updates of different players leave the same store in
    either order. *)
Theorem updateScore_composes (u1 u2 : string) (s1 s2 : Z) (w : World) :
  fault (client w) (served (client w)) = None ->
  fault (client w) (S (served (client w))) = None ->
  keyspace (client (updateScore u1 s2 (updateScore u1 s1 w).2).2)
    = <[userKey u1 := json_Marshal_GameState (mkGameState u1 s2)]> (keyspace (client w)) /\
  (u1 <> u2 ->
   keyspace (client (updateScore u2 s2 (updateScore u1 s1 w).2).2)
     = keyspace (client (updateScore u1 s1 (updateScore u2 s2 w).2).2)).
Proof.
  intros H0 H1.
  assert (forall u s u' s',
            keyspace (client (updateScore u' s' (updateScore u s w).2).2)
              = <[userKey u' := json_Marshal_GameState (mkGameState u' s')]>
                  (<[userKey u := json_Marshal_GameState (mkGameState u s)]>
                     (keyspace (client w)))) as Hboth.
  { intros u s u' s'.
    destruct (updateScore_keyspace u s w H0) as (Hk & Hf & Hn).
    destruct (updateScore_keyspace u' s' (updateScore u s w).2) as (Hk' & _).
    { by rewrite Hf, Hn. }
    by rewrite Hk', Hk. }
  split.
  - by rewrite Hboth, insert_insert_eq.
  - intros Hne. rewrite !Hboth. apply insert_insert_ne.
    intros Heq. by apply userKey_inj in Heq.
Qed.

End UpdateScoreMore.

Lemma updateScore_composes_witness :
  keyspace (client (updateScore "alice" 2 (updateScore "alice" 1 threeSubscribers).2).2)
    = <[userKey "alice" := json_Marshal_GameState (mkGameState "alice" 2)]>
        (keyspace (client threeSubscribers)) /\
  ("alice" <> "bob" ->
   keyspace (client (updateScore "bob" 2 (updateScore "alice" 1 threeSubscribers).2).2)
     = keyspace (client (updateScore "alice" 1 (updateScore "bob" 2 threeSubscribers).2).2)).
Proof.
  apply (updateScore_composes "alice" "bob" 1 2 threeSubscribers); reflexivity.
Defined.

(** ** [getUser] *)

Lemma getUser_lookup u w :
  u <> "" ->
  getUser (lookupRequest u) w =
    (match get_reply w (userKey u) with
     | inl redis_Nil => Wrote userNotFound
     | inl _ => Wrote failedToGetUser
     | inr value =>
         match json_Unmarshal_GameState value with
         | inl _ => Wrote internalServerError
         | inr user => Fprintf jsonHeader (json_Marshal_GameState user)
         end
     end,
     (client_Get (userKey u) w).2).
Proof.
  intros Hne. unfold getUser, lookupRequest.
  cbn [Req Query Method String.eqb Ascii.eqb Bool.eqb MethodOptions MethodGet url_Values_Get].
  destruct u as [|c u]; [done|]. cbn [String.eqb]. unfold bind.
  change ("user:" ++ String c u)%string with (userKey (String c u)).
  rewrite client_Get_eq. cbn [fst snd].
  destruct (get_reply w (userKey (String c u))) as [[]|value]; try reflexivity.
  by destruct (json_Unmarshal_GameState value).
Qed.

(** X10. /get-user never writes: for every request the stored records, the
    registry and the connections are as before, and at most one command
    was sent to the store. *)
Theorem getUser_read_only (r : URLRequest) (w : World) :
  untouched w (getUser r w).2 /\
  (served (client (getUser r w).2) <= S (served (client w)))%nat.
Proof.
  unfold getUser.
  destruct (String.eqb (Method (Req r)) MethodOptions);
    [split; [apply untouched_refl|cbn; lia]|].
  destruct (String.eqb (Method (Req r)) MethodGet);
    [|split; [apply untouched_refl|cbn; lia]].
  cbv zeta. destruct (String.eqb (url_Values_Get (Query r) "username") "");
    [split; [apply untouched_refl|cbn; lia]|].
  unfold bind. rewrite client_Get_eq.
  assert (forall a : Answer, untouched w (a, (client_Get ("user:" ++ url_Values_Get (Query r) "username") w).2).2
            /\ (served (client (a, (client_Get ("user:" ++ url_Values_Get (Query r) "username") w).2).2)
                 <= S (served (client w)))%nat) as Hany.
  { intros a. split; [apply client_Get_untouched|]. cbn. lia. }
  rewrite client_Get_eq in Hany.
  destruct (get_reply w _) as [[]|value]; try apply Hany.
  destruct (json_Unmarshal_GameState value); apply Hany.
Qed.

(** X11. /get-user tells a user that is not there from a store that does
    not answer: for a non-empty username an absent key gives status 404,
    a failed read gives status 500 whether or not the user exists. *)
Theorem getUser_absent_or_failed (u : string) (w : World) :
  u <> "" ->
  (fault (client w) (served (client w)) = None ->
   keyspace (client w) !! userKey u = None ->
   (getUser (lookupRequest u) w).1 = Wrote userNotFound) /\
  (forall e, fault (client w) (served (client w)) = Some e -> e <> redis_Nil ->
   (getUser (lookupRequest u) w).1 = Wrote failedToGetUser).
Proof.
  intros Hne. rewrite getUser_lookup by done. unfold get_reply. cbn [fst]. split.
  - by intros -> ->.
  - intros e -> He. by destruct e.
Qed.

Section Compositions.
Context {rt : GoRuntime}.

(** X12. What [updateScore] stored is what /get-user reads: after an
    update that reached the store, a lookup of that user that reaches the
    store passes the JSON of the new record to [fmt.Fprintf], as the
    format string, under the content type application/json. *)
Theorem getUser_after_updateScore (u : string) (s : Z) (w : World) :
  u <> "" ->
  fault (client w) (served (client w)) = None ->
  fault (client w) (S (served (client w))) = None ->
  (getUser (lookupRequest u) (updateScore u s w).2).1
    = Fprintf jsonHeader (json_Marshal_GameState (mkGameState u s)).
Proof.
  intros Hne H0 H1. rewrite getUser_lookup by done. cbn [fst].
  destruct (updateScore_keyspace u s w H0) as (Hk & Hf & Hn).
  unfold get_reply. rewrite Hf, Hn, H1, Hk, lookup_insert_eq.
  by rewrite json_roundtrip.
Qed.

(** X13. A player created by a score update exists for /add-user: after an
    update that reached the store, a post for that user is answered with
    "already exists" and the updated score, in the words of either
    variant, and does not reset the score. *)
Theorem addUser_after_updateScore (u : string) (s s' : Z) (w : World) :
  reachable w ->
  let w1 := (updateScore u s w).2 in
  reports LiteralServer.addUser (post u s') w1 (alreadyExists u s) /\
  reports EnvServer.addUser (post u s') w1 (existsText u s).
Proof.
  intros Hre w1. subst w1.
  destruct (updateScore_keyspace u s w (Hre _)) as (Hk & Hf & _).
  assert (reachable (updateScore u s w).2) as Hre' by (intros n; rewrite Hf; apply Hre).
  assert (keyspace (client (updateScore u s w).2) !! userKey u
            = Some (json_Marshal_GameState (mkGameState u s))) as Hlook
    by (rewrite Hk; apply lookup_insert_eq).
  split.
  - by apply LiteralServer_addUser_reports.
  - by apply EnvServer_addUser_reports.
Qed.

End Compositions.

Lemma getUser_absent_or_failed_witness :
  (getUser (lookupRequest "carol") threeSubscribers).1 = Wrote userNotFound /\
  (getUser (lookupRequest "alice") storeDown).1 = Wrote failedToGetUser.
Proof.
  split.
  - apply (proj1 (getUser_absent_or_failed "carol" threeSubscribers ltac:(discriminate)));
      reflexivity.
  - apply (proj2 (getUser_absent_or_failed "alice" storeDown ltac:(discriminate))
             (StoreError "connection refused")); [reflexivity|discriminate].
Defined.

Lemma getUser_after_updateScore_witness :
  (getUser (lookupRequest "alice") (updateScore "alice" 30 threeSubscribers).2).1
    = Fprintf jsonHeader (json_Marshal_GameState (mkGameState "alice" 30)).
Proof.
  apply (getUser_after_updateScore "alice" 30 threeSubscribers);
    [discriminate|reflexivity|reflexivity].
Defined.

Lemma addUser_after_updateScore_witness :
  reports LiteralServer.addUser (post "dave" 0)
          (updateScore "dave" 42 threeSubscribers).2 (alreadyExists "dave" 42) /\
  reports EnvServer.addUser (post "dave" 0)
          (updateScore "dave" 42 threeSubscribers).2 (existsText "dave" 42).
Proof.
  apply (addUser_after_updateScore "dave" 42 0 threeSubscribers).
  intros n. reflexivity.
Defined.

(** ** The message loop: subscribe and update frames *)

Section Frames.
Context {rt : GoRuntime} {laws : GoRuntimeLaws rt}.

(** [int(score)] is an int; for an integer literal below 2^53 in
    magnitude it is the literal. *)
Lemma int_of_float64_int64 (score : number) : in_int64 (int_of_float64 score) = true.
Proof.
  unfold int_of_float64. cbv zeta.
  destruct (in_int64 (float64_trunc score)) eqn:Hin; [done|].
  apply int_out_of_range_int64.
Qed.

Lemma int_of_float64_exact (z : Z) :
  (Z.abs z < 2 ^ 53)%Z -> int_of_float64 (IntLit z) = z.
Proof.
  intros Hz. unfold int_of_float64, float64_trunc, float64_of_int. cbv zeta.
  assert (Z.log2 (Z.abs z) - 52 <= 0)%Z as Hlog.
  { destruct (Z.eq_dec (Z.abs z) 0) as [->|Hne]; [done|].
    assert (Z.log2 (Z.abs z) < 53)%Z by (apply Z.log2_lt_pow2; lia). lia. }
  destruct (Z.leb_spec (Z.log2 (Z.abs z) - 52) 0); [|lia].
  unfold in_int64.
  destruct (Z.leb_spec (- 2 ^ 63) z), (Z.ltb_spec z (2 ^ 63)); try done; lia.
Qed.

Lemma handleUpdate_eq data w :
  handleUpdate data w =
    match update_args data with
    | Some (username, score) =>
        match (updateScore username score w).1 with
        | Some e => fmt_Println ("err updating score " ++ error_text e)
                                (updateScore username score w).2
        | None => (tt, (updateScore username score w).2)
        end
    | None =>
        match map_index data "value" with
        | Some (JObject _) => fmt_Println "err in map <nil>" w
        | _ => fmt_Println "err in map <nil>"
                 (fmt_Println "Error: 'value' field missing or not a map" w).2
        end
    end.
Proof.
  unfold handleUpdate, update_args, bind.
  destruct (map_index data "value") as [[| | | | |valuemap]|]; try reflexivity.
  unfold ret.
  destruct (map_index valuemap "username") as [[| | |username| |]|]; try reflexivity.
  destruct (map_index valuemap "score") as [[| |score| | |]|]; try reflexivity.
  destruct (updateScore username (int_of_float64 score) w) as [[e|] w1]; reflexivity.
Qed.

Lemma handleMessage_update ws message data w :
  json_Unmarshal_map message = inr data ->
  type_of message = Some "update" ->
  handleMessage ws TextMessage message w = (false, (handleUpdate data w).2).
Proof.
  unfold type_of, handleMessage. intros -> Htype. cbn [Z.eqb TextMessage Pos.eqb].
  unfold iface_eq_string.
  destruct (map_index data "type") as [[| | |s| |]|]; try done.
  injection Htype as ->. cbn [String.eqb Ascii.eqb Bool.eqb andb]. unfold bind, ret.
  by destruct (handleUpdate data w) as [[] w1].
Qed.

(** X14. An update frame that decodes (no number outside float64) and
    whose value carries a string username and a number score runs
    [updateScore] on the username and on [int(score)], which is an int,
    and nothing else: the new record is stored and broadcast as by any
    other update; when the update fails the error is printed and no frame
    is written to the sender. *)
Theorem handleMessage_update_runs_updateScore (ws : Conn) (message : payload)
    (data : list (string * json)) (username : string) (score : Z) (w : World) :
  json_Unmarshal_map message = inr data ->
  type_of message = Some "update" ->
  update_args data = Some (username, score) ->
  in_int64 score = true /\
  handleMessage ws TextMessage message w =
    (false,
     match (updateScore username score w).1 with
     | Some e => (fmt_Println ("err updating score " ++ error_text e)
                              (updateScore username score w).2).2
     | None => (updateScore username score w).2
     end).
Proof.
  intros Hdata Htype Hargs. split.
  - unfold update_args in Hargs.
    destruct (map_index data "value") as [[| | | | |valuemap]|]; try done.
    destruct (map_index valuemap "username") as [[| | |u| |]|]; try done.
    destruct (map_index valuemap "score") as [[| |n| | |]|]; try done.
    injection Hargs as _ <-. apply int_of_float64_int64.
  - rewrite (handleMessage_update ws message data w Hdata Htype).
    rewrite handleUpdate_eq, Hargs.
    by destruct (updateScore username score w).1.
Qed.

(** X15. An update frame without a usable value (no value, a value that is
    no object, a username that is no string, a score that is no number)
    changes nothing: no command goes to the store and no frame to any
    connection; the loop only prints. *)
Theorem handleMessage_update_malformed (ws : Conn) (message : payload)
    (data : list (string * json)) (w : World) :
  json_Unmarshal_map message = inr data ->
  type_of message = Some "update" ->
  update_args data = None ->
  let w' := (handleMessage ws TextMessage message w).2 in
  (handleMessage ws TextMessage message w).1 = false /\
  client w' = client w /\
  leaderboardSubscribers w' = leaderboardSubscribers w /\
  sockets w' = sockets w /\
  exists new, trace w' = trace w ++ new /\ Forall is_Println new.
Proof.
  intros Hdata Htype Hargs w'. subst w'.
  rewrite (handleMessage_update ws message data w Hdata Htype).
  rewrite handleUpdate_eq, Hargs. cbn [fst snd].
  split; [done|].
  destruct (map_index data "value") as [[| | | | |valuemap]|];
    (split; [done|]; split; [done|]; split; [done|]);
    first [ exists [Println "err in map <nil>"];
            split; [reflexivity|by repeat constructor]
          | exists [Println "Error: 'value' field missing or not a map";
                    Println "err in map <nil>"];
            split; [cbn; by rewrite <- app_assoc|by repeat constructor] ].
Qed.

(** X16. A subscribe frame for the channel leaderboard_updates is answered
    with one subscription_confirmed frame to the sender; the result of that
    write is not looked at, so a failed confirmation leaves the handle
    registered.  A subscribe frame for any other channel is dropped. *)
Theorem handleMessage_subscribe (ws : Conn) (message : payload)
    (data : list (string * json)) (w : World) :
  json_Unmarshal_map message = inr data ->
  type_of message = Some "subscribe" ->
  (map_index data "channel" = Some (JString "leaderboard_updates") ->
   handleMessage ws TextMessage message w =
     (false,
      mkWorld (client w) (leaderboardSubscribers w) (sockets w)
              (trace w ++ [Println "Client subscribed to leaderboard updates";
                           WsWrite ws TextMessage subscriptionConfirmed (write_reply w ws)]))) /\
  (map_index data "channel" <> Some (JString "leaderboard_updates") ->
   handleMessage ws TextMessage message w = (false, w)).
Proof.
  unfold type_of, handleMessage. intros -> Htype. cbn [Z.eqb TextMessage Pos.eqb].
  unfold iface_eq_string at 1 3.
  destruct (map_index data "type") as [[| | |s| |]|]; try done.
  injection Htype as ->. cbn [String.eqb Ascii.eqb Bool.eqb andb]. split.
  - intros ->. cbn [iface_eq_string String.eqb Ascii.eqb Bool.eqb].
    unfold bind, fmt_Println, emit, WriteMessage, bind, emit, ret, write_reply,
      subscriptionConfirmed.
    cbn. by rewrite <- app_assoc.
  - intros Hch. unfold iface_eq_string.
    destruct (map_index data "channel") as [[| | |c| |]|]; try reflexivity.
    destruct (String.eqb_spec c "leaderboard_updates") as [->|_]; [done|reflexivity].
Qed.

Lemma handleMessage_continues ws messageType message w :
  exists w', handleMessage ws messageType message w = (false, w') /\ sockets w' = sockets w.
Proof.
  unfold handleMessage.
  destruct (messageType =? TextMessage)%Z; [|by exists w].
  destruct (json_Unmarshal_map message) as [err|data]; [by exists w|].
  assert (forall w0, sockets (handleUpdate data w0).2 = sockets w0) as Hupd.
  { intros w0. rewrite handleUpdate_eq.
    destruct (update_args data) as [[username score]|].
    - destruct (updateScore_client username score w0) as (_ & Hs & _).
      by destruct (updateScore username score w0).1.
    - by destruct (map_index data "value") as [[| | | | |valuemap]|]. }
  unfold bind.
  destruct (iface_eq_string (map_index data "type") "subscribe"
            && iface_eq_string (map_index data "channel") "leaderboard_updates").
  - unfold fmt_Println, emit, WriteMessage, bind, emit, ret. cbn [json_Marshal_map].
    destruct (iface_eq_string (map_index data "type") "update"); [|by eexists].
    match goal with |- context [handleUpdate data ?w0] =>
      pose proof (Hupd w0) as Hs; destruct (handleUpdate data w0) as [[] w1] end.
    exists w1. split; [done|]. exact Hs.
  - unfold ret at 1.
    destruct (iface_eq_string (map_index data "type") "update"); [|by exists w].
    pose proof (Hupd w) as Hs. destruct (handleUpdate data w) as [[] w1].
    exists w1. split; [done|]. exact Hs.
Qed.

Lemma ReadMessage_closed ws w c :
  closed (socket_of (ReadMessage ws w).2 c) = closed (socket_of w c).
Proof.
  assert (forall e, closed (socket_of (read_fails ws e w).2 c) = closed (socket_of w c)) as Hfail.
  { intros e. unfold read_fails, bind.
    by destruct (1000 <=? S (failed_read_count (trace w) ws))%nat. }
  unfold ReadMessage, bind.
  destruct (closed (socket_of w ws)) eqn:Hclosed; [apply Hfail|].
  destruct (incoming (socket_of w ws)) as [|frame rest].
  - destruct (hangup (socket_of w ws)); [apply Hfail|done].
  - unfold set_socket, emit, ret, socket_of. cbn [fst snd sockets].
    destruct (decide (c = ws)) as [->|Hne].
    + rewrite lookup_insert_eq. cbn. done.
    + by rewrite lookup_insert_ne.
Qed.

(** A read panics only with the library's message, on a connection with
    999 failed reads, and leaves the world as it is. *)
Lemma ReadMessage_panic_inv ws w msg :
  (ReadMessage ws w).1 = ReadPanics msg ->
  msg = repeatedRead /\ (999 <= failed_read_count (trace w) ws)%nat /\
  (ReadMessage ws w).2 = w.
Proof.
  assert (forall e, (read_fails ws e w).1 = ReadPanics msg ->
            msg = repeatedRead /\ (999 <= failed_read_count (trace w) ws)%nat /\
            (read_fails ws e w).2 = w) as Hfail.
  { intros e. unfold read_fails, bind.
    destruct (Nat.leb_spec 1000 (S (failed_read_count (trace w) ws))); cbn; [|done].
    intros [= <-]. split; [done|]. split; [lia|done]. }
  unfold ReadMessage, bind.
  destruct (closed (socket_of w ws)); [apply Hfail|].
  destruct (incoming (socket_of w ws)) as [|frame rest]; [|done].
  destruct (hangup (socket_of w ws)); [apply Hfail|done].
Qed.

Lemma handleWebSocket_loop_step fuel ws w :
  handleWebSocket_loop (S fuel) ws w =
    let w1 := (ReadMessage ws w).2 in
    match (ReadMessage ws w).1 with
    | ReadBlocks => (Waiting, w1)
    | ReadPanics msg => (Panicked msg, w1)
    | ReadReturns (inl err) => handleWebSocket_loop fuel ws (fmt_Println (error_text err) w1).2
    | ReadReturns (inr (messageType, message)) =>
        if (handleMessage ws messageType message w1).1
        then (Returned tt, (handleMessage ws messageType message w1).2)
        else handleWebSocket_loop fuel ws (handleMessage ws messageType message w1).2
    end.
Proof.
  cbn [handleWebSocket_loop]. unfold bind at 1.
  destruct (ReadMessage ws w) as [[|[err|[messageType message]]|msg] w1]; cbn [fst snd].
  - reflexivity.
  - reflexivity.
  - unfold bind. by destruct (handleMessage ws messageType message w1) as [[] w2].
  - reflexivity.
Qed.

Lemma handleWebSocket_loop_exits fuel ws : forall w,
  (handleWebSocket_loop fuel ws w).1 <> Returned tt /\
  (forall c, closed (socket_of (handleWebSocket_loop fuel ws w).2 c) = closed (socket_of w c)) /\
  panic_is_repeated_read (handleWebSocket_loop fuel ws w).1 (handleWebSocket_loop fuel ws w).2 ws.
Proof.
  induction fuel as [|fuel IH]; intros w; [done|].
  rewrite handleWebSocket_loop_step. cbv zeta.
  pose proof (ReadMessage_closed ws w) as Hread.
  pose proof (ReadMessage_panic_inv ws w) as Hpanic.
  destruct (ReadMessage ws w).1 as [|[err|[messageType message]]|msg].
  - done.
  - destruct (IH (fmt_Println (error_text err) (ReadMessage ws w).2).2) as (Hr & Hc & Hp).
    split; [done|]. split; [|done]. intros c. rewrite Hc. apply Hread.
  - destruct (handleMessage_continues ws messageType message (ReadMessage ws w).2)
      as (w2 & -> & Hs).
    cbn [fst snd].
    destruct (IH w2) as (Hr & Hc & Hp). split; [done|]. split; [|done].
    intros c. rewrite Hc, <- Hread. unfold socket_of. by rewrite Hs.
  - destruct (Hpanic msg eq_refl) as (-> & Hcount & Hw).
    cbn [fst snd panic_is_repeated_read]. rewrite Hw. done.
Qed.

(** X17. After a successful handshake the handler never returns.  It is
    waiting for a frame or still looping, or it was left by the panic of
    the library on the 1000th failed read of its connection; only that
    panic closes a connection, namely its own. *)
Theorem handleWebSocket_leaves_only_by_panic (fuel : nat) (ws : Conn) (w : World) :
  let run := handleWebSocket fuel (inr ws) w in
  run.1 <> Returned tt /\
  panic_is_repeated_read run.1 run.2 ws /\
  (forall c, closed (socket_of run.2 c)
             = (left_by_panic run.1 && bool_decide (c = ws)) || closed (socket_of w c)).
Proof.
  cbv zeta. unfold handleWebSocket, bind, subscribers_add.
  destruct (handleWebSocket_loop_exits fuel ws
              (mkWorld (client w) ({[ws]} ∪ leaderboardSubscribers w) (sockets w) (trace w)))
    as (Hr & Hc & Hp).
  destruct (handleWebSocket_loop fuel ws _) as [[[]| | |msg] w1];
    cbn [fst snd left_by_panic andb orb] in *; try done.
  destruct Hp as [-> Hcount]. split; [done|]. split.
  - split; [done|]. unfold Close, bind, set_socket, emit, ret. cbn [fst snd trace].
    rewrite failed_read_count_app. cbn. lia.
  - intros c. unfold Close, bind, set_socket, emit, ret, socket_of. cbn [fst snd sockets].
    destruct (decide (c = ws)) as [->|Hne].
    + rewrite lookup_insert_eq, bool_decide_eq_true_2 by done. done.
    + rewrite lookup_insert_ne, bool_decide_eq_false_2 by done. apply Hc.
Qed.

End Frames.

Lemma handleMessage_update_runs_updateScore_witness :
  in_int64 30 = true /\
  handleMessage 1%positive TextMessage (updateFrame "alice" 30) threeSubscribers =
    (false,
     match (updateScore "alice" 30 threeSubscribers).1 with
     | Some e => (fmt_Println ("err updating score " ++ error_text e)
                              (updateScore "alice" 30 threeSubscribers).2).2
     | None => (updateScore "alice" 30 threeSubscribers).2
     end).
Proof.
  apply (handleMessage_update_runs_updateScore 1%positive (updateFrame "alice" 30)
           [("type", JString "update");
            ("value", JObject [("username", JString "alice");
                               ("score", JNumber (IntLit 30))])]
           "alice" 30 threeSubscribers); reflexivity.
Defined.

(** A score literal that float64 rounds up to 2^63 is converted as the
    runtime decides, here to the least int; a frame holding a number
    outside float64 is dropped. *)
Example handleMessage_update_edge_scores :
  update_args [("value", JObject [("username", JString "alice");
                                  ("score", JNumber (IntLit (2 ^ 63 - 1)))])]
    = Some ("alice", (- 2 ^ 63)%Z) /\
  handleMessage 1%positive TextMessage
    (JSONText (JObject [("type", JString "update");
                        ("value", JObject [("username", JString "alice");
                                           ("score", JNumber HugeLit)])]))
    threeSubscribers
    = (false, threeSubscribers).
Proof. split; reflexivity. Qed.

Lemma handleMessage_update_malformed_witness :
  let message := JSONText (JObject [("type", JString "update");
                                    ("value", JObject [("username", JString "alice")])]) in
  let w' := (handleMessage 1%positive TextMessage message threeSubscribers).2 in
  (handleMessage 1%positive TextMessage message threeSubscribers).1 = false /\
  client w' = client threeSubscribers /\
  leaderboardSubscribers w' = leaderboardSubscribers threeSubscribers /\
  sockets w' = sockets threeSubscribers /\
  exists new, trace w' = trace threeSubscribers ++ new /\ Forall is_Println new.
Proof.
  apply (handleMessage_update_malformed 1%positive
           (JSONText (JObject [("type", JString "update");
                               ("value", JObject [("username", JString "alice")])]))
           [("type", JString "update"); ("value", JObject [("username", JString "alice")])]
           threeSubscribers); reflexivity.
Defined.

Lemma handleMessage_subscribe_witness :
  handleMessage 2%positive TextMessage (subscribeFrame "leaderboard_updates") threeSubscribers =
    (false,
     mkWorld (client threeSubscribers) (leaderboardSubscribers threeSubscribers)
             (sockets threeSubscribers)
             (trace threeSubscribers
              ++ [Println "Client subscribed to leaderboard updates";
                  WsWrite 2%positive TextMessage subscriptionConfirmed
                          (write_reply threeSubscribers 2%positive)])) /\
  handleMessage 2%positive TextMessage (subscribeFrame "chat") threeSubscribers
    = (false, threeSubscribers).
Proof.
  split.
  - apply (proj1 (handleMessage_subscribe 2%positive (subscribeFrame "leaderboard_updates")
                    [("type", JString "subscribe"); ("channel", JString "leaderboard_updates")]
                    threeSubscribers eq_refl eq_refl)).
    reflexivity.
  - apply (proj2 (handleMessage_subscribe 2%positive (subscribeFrame "chat")
                    [("type", JString "subscribe"); ("channel", JString "chat")]
                    threeSubscribers eq_refl eq_refl)).
    discriminate.
Defined.

(** ** [addUser]: failures *)

(** X18. When the read of the user's key returns an error and the write
    that follows fails, both variants answer status 500 with "Failed to add
    user" and the store is as it was. *)
Theorem addUser_write_failure (u : string) (s : Z) (w : World) (e e' : error) :
  get_reply w (userKey u) = inl e ->
  fault (client w) (S (served (client w))) = Some e' ->
  ((LiteralServer.addUser (post u s) w).1 = failedToAddUser /\
   keyspace (client (LiteralServer.addUser (post u s) w).2) = keyspace (client w)) /\
  ((EnvServer.addUser (post u s) w).1 = failedToAddUser /\
   keyspace (client (EnvServer.addUser (post u s) w).2) = keyspace (client w)).
Proof.
  intros Hget Hset.
  unfold LiteralServer.addUser, EnvServer.addUser, post.
  cbn [Method Body String.eqb Ascii.eqb Bool.eqb MethodOptions].
  rewrite json_roundtrip. cbn [Username]. unfold bind.
  change ("user:" ++ u)%string with (userKey u).
  rewrite client_Get_eq, Hget. cbn [json_Marshal].
  unfold client_Set, send_command, bind, emit, ret. cbn. rewrite Hset. cbn. done.
Qed.

(** X19. A stored value that does not decode is left alone: both variants
    answer status 500 with "Internal server error", send no write and keep
    the value, where after a failed read they would overwrite it. *)
Theorem addUser_corrupt_record_kept (u : string) (s : Z) (w : World)
    (value : payload) (e : error) :
  fault (client w) (served (client w)) = None ->
  keyspace (client w) !! userKey u = Some value ->
  json_Unmarshal_GameState value = inl e ->
  ((LiteralServer.addUser (post u s) w).1 = internalServerError /\
   keyspace (client (LiteralServer.addUser (post u s) w).2) = keyspace (client w) /\
   served (client (LiteralServer.addUser (post u s) w).2) = S (served (client w))) /\
  ((EnvServer.addUser (post u s) w).1 = internalServerError /\
   keyspace (client (EnvServer.addUser (post u s) w).2) = keyspace (client w) /\
   served (client (EnvServer.addUser (post u s) w).2) = S (served (client w))).
Proof.
  intros Hok Hlook Hdec.
  unfold LiteralServer.addUser, EnvServer.addUser, post.
  cbn [Method Body String.eqb Ascii.eqb Bool.eqb MethodOptions].
  rewrite json_roundtrip. cbn [Username]. unfold bind.
  change ("user:" ++ u)%string with (userKey u).
  rewrite client_Get_eq. unfold get_reply. rewrite Hok, Hlook, Hdec. done.
Qed.


Lemma addUser_write_failure_witness :
  ((LiteralServer.addUser (post "carol" 5) writeDown).1 = failedToAddUser /\
   keyspace (client (LiteralServer.addUser (post "carol" 5) writeDown).2)
     = keyspace (client writeDown)) /\
  ((EnvServer.addUser (post "carol" 5) writeDown).1 = failedToAddUser /\
   keyspace (client (EnvServer.addUser (post "carol" 5) writeDown).2)
     = keyspace (client writeDown)).
Proof.
  apply (addUser_write_failure "carol" 5 writeDown redis_Nil (StoreError "i/o timeout"));
    reflexivity.
Defined.

Lemma addUser_corrupt_record_kept_witness :
  ((LiteralServer.addUser (post "bob" 5) corruptBob).1 = internalServerError /\
   keyspace (client (LiteralServer.addUser (post "bob" 5) corruptBob).2)
     = keyspace (client corruptBob) /\
   served (client (LiteralServer.addUser (post "bob" 5) corruptBob).2)
     = S (served (client corruptBob))) /\
  ((EnvServer.addUser (post "bob" 5) corruptBob).1 = internalServerError /\
   keyspace (client (EnvServer.addUser (post "bob" 5) corruptBob).2)
     = keyspace (client corruptBob) /\
   served (client (EnvServer.addUser (post "bob" 5) corruptBob).2)
     = S (served (client corruptBob))).
Proof.
  apply (addUser_corrupt_record_kept "bob" 5 corruptBob (JSONText (JString "bob"))
           (UnmarshalTypeError "GameState")); reflexivity.
Defined.

